(** * Tiled to GBA export: the two map formats, embedded and verified

    The repository holds two Tiled extensions.  [tiled-to-gba-export.js]
    registers the map format "gba" (regular backgrounds, dumped in 32x32
    screenblocks with flip bits) and [tiled-to-gba-export-affine.js]
    registers "gba-affine" (affine backgrounds, dumped row by row).  Each
    [write] builds two texts, a header and a C source, and commits them
    through the host's [TextFile].

    The embedding is shallow.  JavaScript strings are [string]s (one [ascii]
    per code unit), JavaScript integers are [Z], the loops are folds over
    their index ranges with the accumulated text as state, and the effects
    of a call are returned as the list of what it did to the host.

    What the host does is taken as given: [FileInfo] is a record of three
    functions on strings, a [TextFile] write followed by [commit] is the
    effect [FileCommit], and a failing file operation (an exception of the
    host) is outside the model.  Numbers stay within the range in which
    JavaScript prints integers in full. *)

From Stdlib Require Import ZArith List Bool Ascii String Lia.
From Stdlib Require Import DecimalString HexadecimalString.
From Stdlib Require HexadecimalPos HexadecimalFacts.
Import ListNotations.

#[local] Open Scope list_scope.
#[local] Open Scope string_scope.
#[local] Open Scope Z_scope.

(* ================================================================== *)
(** * JavaScript primitives used by the scripts *)
(* ================================================================== *)

Module JS.

(** The line feed and the double quote, which the scripts write as
    backslash escapes. *)
Definition LF : string := String "010"%char EmptyString.
Definition DQ : string := String "034"%char EmptyString.

(** [String(n)] for an integer [n], as template literals and [+] apply it. *)
Definition numberToString (n : Z) : string :=
  DecimalString.NilZero.string_of_int (Z.to_int n).

(** [n.toString(16)]: lower-case digits, a leading minus for negatives. *)
Definition toString16 (n : Z) : string :=
  HexadecimalString.NilZero.string_of_int (Z.to_hex_int n).

(** [toUpperCase] on one code unit.  The scripts apply it to sanitized
    names and to hexadecimal digits only, so the ASCII letters suffice. *)
Definition upperChar (c : ascii) : ascii :=
  let n := nat_of_ascii c in
  if ((97 <=? n)%nat && (n <=? 122)%nat)%bool then ascii_of_nat (n - 32) else c.

Fixpoint mapString (f : ascii -> ascii) (s : string) : string :=
  match s with
  | EmptyString => EmptyString
  | String c s' => String (f c) (mapString f s')
  end.

Definition toUpperCase (s : string) : string := mapString upperChar s.

Fixpoint repeatChar (c : ascii) (n : nat) : string :=
  match n with
  | O => EmptyString
  | S n' => String c (repeatChar c n')
  end.

(** [s.padStart(targetLength, c)] for a one-character filler [c]. *)
Definition padStart (targetLength : nat) (c : ascii) (s : string) : string :=
  repeatChar c (targetLength - String.length s) ++ s.

Fixpoint take (n : nat) (s : string) : string :=
  match n, s with
  | S n', String c s' => String c (take n' s')
  | _, _ => EmptyString
  end.

(** [s.slice(0, e)]: a negative [e] counts from the end of [s], and the
    end index is clamped to [0 .. s.length]. *)
Definition slice0 (s : string) (e : Z) : string :=
  let len := Z.of_nat (String.length s) in
  let stop := if e <? 0 then Z.max (len + e) 0 else Z.min e len in
  take (Z.to_nat stop) s.

(** [ToInt32] and the bitwise or of two numbers. *)
Definition toInt32 (n : Z) : Z := (n + 2 ^ 31) mod 2 ^ 32 - 2 ^ 31.
Definition bitOr (a b : Z) : Z := Z.lor (toInt32 a) (toInt32 b).

(** [a % b], whose sign follows the dividend. *)
Definition remainder (a b : Z) : Z := Z.rem a b.

(** The character class [a-zA-Z0-9-_] of the scripts' regular expression. *)
Definition inClass (c : ascii) : bool :=
  let n := nat_of_ascii c in
  ((97 <=? n)%nat && (n <=? 122)%nat        (* a-z *)
   || (65 <=? n)%nat && (n <=? 90)%nat      (* A-Z *)
   || (48 <=? n)%nat && (n <=? 57)%nat      (* 0-9 *)
   || (n =? 45)%nat                         (* - *)
   || (n =? 95)%nat)%bool.                  (* _ *)

(** [s.replace(/[^a-zA-Z0-9-_]/g, "_")]: the global flag replaces every
    code unit outside the class, one by one. *)
Definition replaceOutsideClass (s : string) : string :=
  mapString (fun c => if inClass c then c else "_"%char) s.

(** [for (let i = 0; i < n; ++i) body], with the loop's variables as the
    state [S] that [body] transforms. *)
Definition forLoop {S : Type} (n : nat) (body : S -> nat -> S) (s : S) : S :=
  fold_left body (seq 0 n) s.

(** How often [for (let i = 0; i < num / den; ++i)] runs.  The quotient
    is a JavaScript number, not an integer: the loop counts the naturals
    strictly below it. *)
Definition countBelowQuotient (num den : Z) : nat :=
  Z.to_nat ((num + den - 1) / den).

End JS.

Import JS.

(* ================================================================== *)
(** * The host's objects *)
(* ================================================================== *)

(** [cell.tileId].  Tiled hands an integer, with -1 for an empty cell; the
    scripts compare it with the string "-1" under [==], which also accepts
    that string itself. *)
Inductive TileId : Type :=
| IdNumber (n : Z)
| IdStringMinusOne.

Record Cell : Type := mkCell {
  tileId : TileId;
  flippedHorizontally : bool;
  flippedVertically : bool
}.

Record Layer : Type := mkLayer {
  name : string;
  width : Z;
  height : Z;
  isTileLayer : bool;
  cellAt : Z -> Z -> Cell
}.

(** [p_map]: [layerCount] is the length of [layers] and [layerAt i] its
    i-th element. *)
Record TileMap : Type := mkTileMap {
  map_width : Z;
  map_height : Z;
  layers : list Layer
}.

(** The three [FileInfo] functions of the host. *)
Record FileInfo : Type := mkFileInfo {
  completeBaseName : string -> string;
  path : string -> string;
  toNativeSeparators : string -> string
}.

(** What a call does to the host, in order. *)
Inductive Effect : Type :=
| ConsoleTime (label : string)
| ConsoleTimeEnd (label : string)
| ConsoleLog (message : string)
| TiledLog (message : string)
| FileCommit (fileName contents : string).

(** The result of [write]: [returned] is [None] for [undefined] (success)
    and [Some message] for an error string. *)
Record Outcome : Type := mkOutcome {
  returned : option string;
  effects : list Effect
}.

Definition isFileCommit (e : Effect) : bool :=
  match e with FileCommit _ _ => true | _ => false end.

Definition filesWritten (o : Outcome) : list Effect :=
  filter isFileCommit (effects o).

(** [currentTileID == "-1"]. *)
Definition looseEqMinusOne (t : TileId) : bool :=
  match t with
  | IdNumber n => n =? -1
  | IdStringMinusOne => true
  end.

(** The number a tile id stands for once the blank test has failed. *)
Definition idNumber (t : TileId) : Z :=
  match t with
  | IdNumber n => n
  | IdStringMinusOne => -1
  end.

(** [decimalToHex(p_decimal, p_padding)], the same in both scripts. *)
Definition decimalToHex (p_decimal : Z) (p_padding : nat) : string :=
  "0x" ++ padStart p_padding "0"%char (toUpperCase (toString16 p_decimal)).

(** The identifier sanitizer both scripts apply to the file base name and
    to every layer name. *)
Definition sanitize (s : string) : string := replaceOutsideClass s.

(** The lines every header ends with. *)
Definition headerClose (headerFileData : string) : string :=
  let headerFileData :=
    headerFileData ++ LF ++ "#ifdef __cplusplus" ++ LF ++ "}" ++ LF ++ "#endif" ++ LF in
  headerFileData ++ LF ++ "#endif" ++ LF.

(** [sourceFileData.slice(0,-3) + "\n};\n\n"]. *)
Definition closeArray (sourceFileData : string) : string :=
  slice0 sourceFileData (-3) ++ LF ++ "};" ++ LF ++ LF.

Definition externCLinkage : string :=
  "#ifdef __cplusplus" ++ LF ++ "extern " ++ DQ ++ "C" ++ DQ ++ " {" ++ LF ++ "#endif" ++ LF ++ LF.

Definition externDeclaration (currentLayerName : string) (tilemapLength : Z) : string :=
  "extern const unsigned short " ++ currentLayerName
    ++ "[" ++ numberToString tilemapLength ++ "];" ++ LF.

Definition arrayDefinition (currentLayerName : string) (tilemapLength : Z) : string :=
  "const unsigned short " ++ currentLayerName
    ++ "[" ++ numberToString tilemapLength ++ "] __attribute__((aligned(4))) =" ++ LF.

Definition includeLine (fileBaseName : string) : string :=
  "#include " ++ DQ ++ fileBaseName ++ ".h" ++ DQ ++ LF ++ LF.

(* ================================================================== *)
(** * tiled-to-gba-export.js: the format "gba" *)
(* ================================================================== *)

Module Regular.

Definition SCREENBLOCKWIDTH : Z := 32.
Definition SCREENBLOCKHEIGHT : Z := 32.

Definition sizeError : string :=
  "Export failed: Invalid map size! Map width and height must be a multiple of 32.".

(** The body of the innermost loop (over x): the cell at the absolute
    coordinates is written as 0x0000 when it is blank, and else as its
    tile id with the HFLIP and VFLIP bits of the screen entry. *)
Definition cellStep (currentLayer : Layer) (j k y : nat)
    (sourceFileData : string) (x : nat) : string :=
  let currentTileX := Z.of_nat x + SCREENBLOCKWIDTH * Z.of_nat k in
  let currentTileY := Z.of_nat y + SCREENBLOCKHEIGHT * Z.of_nat j in
  let currentTile := cellAt currentLayer currentTileX currentTileY in
  let currentTileID := tileId currentTile in
  if looseEqMinusOne currentTileID
  then sourceFileData ++ "0x0000, "
  else
    let currentTileID := idNumber currentTileID in
    let currentTileID :=
      if flippedHorizontally currentTile
      then bitOr currentTileID (Z.shiftl 1 10) else currentTileID in
    let currentTileID :=
      if flippedVertically currentTile
      then bitOr currentTileID (Z.shiftl 1 11) else currentTileID in
    sourceFileData ++ (decimalToHex currentTileID 4 ++ ", ").

(** The number the else branch of [cellStep] passes to [decimalToHex], as
    a function of the cell. *)
Definition screenEntry (currentTile : Cell) : Z :=
  let currentTileID := idNumber (tileId currentTile) in
  let currentTileID :=
    if flippedHorizontally currentTile
    then bitOr currentTileID (Z.shiftl 1 10) else currentTileID in
  let currentTileID :=
    if flippedVertically currentTile
    then bitOr currentTileID (Z.shiftl 1 11) else currentTileID in
  currentTileID.

(** The array entry [cellStep] writes for a cell, without the separator. *)
Definition entryText (currentTile : Cell) : string :=
  if looseEqMinusOne (tileId currentTile)
  then "0x0000"
  else decimalToHex (screenEntry currentTile) 4.

(** The body of the loop over y: one indented row of the screenblock. *)
Definition rowStep (currentLayer : Layer) (j k : nat)
    (sourceFileData : string) (y : nat) : string :=
  let sourceFileData := sourceFileData ++ "    " in
  let sourceFileData :=
    forLoop (Z.to_nat SCREENBLOCKWIDTH) (cellStep currentLayer j k y) sourceFileData in
  sourceFileData ++ LF.

(** The body of the loop over k: one screenblock.  The state pairs the
    text with [screenBlockID]. *)
Definition blockStep (currentLayer : Layer) (j : nat)
    (st : string * Z) (k : nat) : string * Z :=
  let '(sourceFileData, screenBlockID) := st in
  let sourceFileData :=
    sourceFileData ++ ("    // Screeblock " ++ numberToString screenBlockID ++ LF) in
  let screenBlockID := screenBlockID + 1 in
  let sourceFileData :=
    forLoop (Z.to_nat SCREENBLOCKHEIGHT) (rowStep currentLayer j k) sourceFileData in
  (sourceFileData ++ LF, screenBlockID).

(** The two outer loops, over the rows (j) and columns (k) of the
    screenblock grid. *)
Definition tileLoops (currentLayer : Layer) (sourceFileData : string) : string :=
  let screenBlockCountX := countBelowQuotient (width currentLayer) SCREENBLOCKWIDTH in
  let screenBlockCountY := countBelowQuotient (height currentLayer) SCREENBLOCKHEIGHT in
  fst (forLoop screenBlockCountY
         (fun st j => forLoop screenBlockCountX (blockStep currentLayer j) st)
         (sourceFileData, 0)).

(** One turn of the loop over the layers; the state pairs
    [headerFileData] with [sourceFileData]. *)
Definition layerStep (tilemapLength : Z) (st : string * string)
    (currentLayer : Layer) : string * string :=
  let '(headerFileData, sourceFileData) := st in
  let currentLayerName := sanitize (name currentLayer) in
  let headerFileData :=
    headerFileData ++ externDeclaration currentLayerName tilemapLength in
  let sourceFileData :=
    sourceFileData ++ arrayDefinition currentLayerName tilemapLength in
  let sourceFileData := sourceFileData ++ ("{" ++ LF) in
  let sourceFileData :=
    if isTileLayer currentLayer
    then tileLoops currentLayer sourceFileData
    else sourceFileData in
  (headerFileData, closeArray sourceFileData).

(** The header defines: plain numbers in this format. *)
Definition headerDefines (fileBaseName : string) (p_map : TileMap)
    (tilemapLength : Z) : string :=
  let up := toUpperCase fileBaseName in
  let headerFileData := "#ifndef _" ++ up ++ "_H_" ++ LF in
  let headerFileData := headerFileData ++ ("#define _" ++ up ++ "_H_" ++ LF ++ LF) in
  let headerFileData :=
    headerFileData ++ ("#define " ++ up ++ "_WIDTH " ++ numberToString (map_width p_map) ++ LF) in
  let headerFileData :=
    headerFileData ++ ("#define " ++ up ++ "_HEIGHT " ++ numberToString (map_height p_map) ++ LF) in
  let headerFileData :=
    headerFileData ++ ("#define " ++ up ++ "_LENGTH " ++ numberToString tilemapLength ++ LF ++ LF) in
  headerFileData ++ externCLinkage.

(** The two texts [write] builds before it touches the disk. *)
Definition fileData (fileBaseName : string) (p_map : TileMap) : string * string :=
  let tilemapLength := map_width p_map * map_height p_map in
  let headerFileData := headerDefines fileBaseName p_map tilemapLength in
  let sourceFileData := includeLine fileBaseName in
  let '(headerFileData, sourceFileData) :=
    fold_left (layerStep tilemapLength) (layers p_map) (headerFileData, sourceFileData) in
  let headerFileData := headerClose headerFileData in
  let sourceFileData := slice0 sourceFileData (-1) in
  (headerFileData, sourceFileData).

Definition write (host : FileInfo) (p_map : TileMap) (p_fileName : string) : Outcome :=
  if (negb (remainder (map_width p_map) 32 =? 0)
      || negb (remainder (map_height p_map) 32 =? 0))%bool
  then mkOutcome (Some sizeError) []
  else
    let fileBaseName := sanitize (completeBaseName host p_fileName) in
    let filePath := path host p_fileName ++ "/" in
    let filePath := toNativeSeparators host filePath in
    let '(headerFileData, sourceFileData) := fileData fileBaseName p_map in
    mkOutcome None
      [ FileCommit (filePath ++ fileBaseName ++ ".h") headerFileData;
        TiledLog ("Tilemap exported to " ++ filePath ++ fileBaseName ++ ".h");
        FileCommit (filePath ++ fileBaseName ++ ".c") sourceFileData;
        TiledLog ("Tilemap exported to " ++ filePath ++ fileBaseName ++ ".c") ].

End Regular.

(* ================================================================== *)
(** * tiled-to-gba-export-affine.js: the format "gba-affine" *)
(* ================================================================== *)

Module Affine.

Definition sizeError : string :=
  "Invalid map size! Map must be 16x16, 32x32, 64x64 or 128x128 in size.".

Definition timerLabel : string := "Export completed in".

(** The test of the size guard, before its negation. *)
Definition validSize (p_map : TileMap) : bool :=
  ((map_width p_map =? 16) && (map_height p_map =? 16)
   || (map_width p_map =? 32) && (map_height p_map =? 32)
   || (map_width p_map =? 64) && (map_height p_map =? 64)
   || (map_width p_map =? 128) && (map_height p_map =? 128))%bool.

(** The body of the loop over x: no flip bits in this format. *)
Definition cellStep (currentLayer : Layer) (y : nat)
    (sourceFileData : string) (x : nat) : string :=
  let currentTileID := tileId (cellAt currentLayer (Z.of_nat x) (Z.of_nat y)) in
  if looseEqMinusOne currentTileID
  then sourceFileData ++ "0x0000, "
  else sourceFileData ++ (decimalToHex (idNumber currentTileID) 4 ++ ", ").

(** The array entry [cellStep] writes for a cell, without the separator. *)
Definition entryText (currentTile : Cell) : string :=
  let currentTileID := tileId currentTile in
  if looseEqMinusOne currentTileID
  then "0x0000"
  else decimalToHex (idNumber currentTileID) 4.

Definition rowStep (p_map : TileMap) (currentLayer : Layer)
    (sourceFileData : string) (y : nat) : string :=
  let sourceFileData := sourceFileData ++ "    " in
  let sourceFileData :=
    forLoop (Z.to_nat (map_width p_map)) (cellStep currentLayer y) sourceFileData in
  sourceFileData ++ LF.

(** One turn of the loop over the layers.  The array is closed inside the
    tile-layer branch. *)
Definition layerStep (p_map : TileMap) (tilemapLength : Z)
    (st : string * string) (currentLayer : Layer) : string * string :=
  let '(headerFileData, sourceFileData) := st in
  let currentLayerName := sanitize (name currentLayer) in
  let headerFileData :=
    headerFileData ++ externDeclaration currentLayerName tilemapLength in
  let sourceFileData :=
    sourceFileData ++ arrayDefinition currentLayerName tilemapLength in
  let sourceFileData := sourceFileData ++ ("{" ++ LF) in
  let sourceFileData :=
    if isTileLayer currentLayer
    then
      let sourceFileData :=
        forLoop (Z.to_nat (map_height p_map)) (rowStep p_map currentLayer) sourceFileData in
      closeArray sourceFileData
    else sourceFileData in
  (headerFileData, sourceFileData).

(** The header defines: parenthesized in this format. *)
Definition headerDefines (fileBaseName : string) (p_map : TileMap)
    (tilemapLength : Z) : string :=
  let up := toUpperCase fileBaseName in
  let headerFileData := "#ifndef _" ++ up ++ "_H_" ++ LF in
  let headerFileData := headerFileData ++ ("#define _" ++ up ++ "_H_" ++ LF ++ LF) in
  let headerFileData :=
    headerFileData ++ ("#define " ++ up ++ "_WIDTH  (" ++ numberToString (map_width p_map) ++ ")" ++ LF) in
  let headerFileData :=
    headerFileData ++ ("#define " ++ up ++ "_HEIGHT (" ++ numberToString (map_height p_map) ++ ")" ++ LF) in
  let headerFileData :=
    headerFileData ++ ("#define " ++ up ++ "_LENGTH (" ++ numberToString tilemapLength ++ ")" ++ LF ++ LF) in
  headerFileData ++ externCLinkage.

Definition fileData (fileBaseName : string) (p_map : TileMap) : string * string :=
  let tilemapLength := map_width p_map * map_height p_map in
  let headerFileData := headerDefines fileBaseName p_map tilemapLength in
  let sourceFileData := includeLine fileBaseName in
  let '(headerFileData, sourceFileData) :=
    fold_left (layerStep p_map tilemapLength) (layers p_map)
      (headerFileData, sourceFileData) in
  let headerFileData := headerClose headerFileData in
  let sourceFileData := slice0 sourceFileData (-1) in
  (headerFileData, sourceFileData).

Definition write (host : FileInfo) (p_map : TileMap) (p_fileName : string) : Outcome :=
  if negb (validSize p_map)
  then mkOutcome (Some sizeError) [ConsoleTime timerLabel]
  else
    let fileBaseName := sanitize (completeBaseName host p_fileName) in
    let filePath := path host p_fileName ++ "/" in
    let filePath := toNativeSeparators host filePath in
    let '(headerFileData, sourceFileData) := fileData fileBaseName p_map in
    mkOutcome None
      [ ConsoleTime timerLabel;
        FileCommit (filePath ++ fileBaseName ++ ".h") headerFileData;
        ConsoleLog ("Tilemap exported to " ++ filePath ++ fileBaseName ++ ".h");
        FileCommit (filePath ++ fileBaseName ++ ".c") sourceFileData;
        ConsoleLog ("Tilemap exported to " ++ filePath ++ fileBaseName ++ ".c");
        ConsoleTimeEnd timerLabel ].

End Affine.

(* ================================================================== *)
(** * Sample inputs *)
(* ================================================================== *)

(** The host's answers for the target file [/maps/level one.c]. *)
Definition sampleHost : FileInfo :=
  mkFileInfo (fun _ => "level one") (fun _ => "/maps") (fun p => p).

Definition sampleFileName : string := "/maps/level one.c".

Definition blankCell : Cell := mkCell (IdNumber (-1)) false false.

Definition plainCell (n : Z) : Cell := mkCell (IdNumber n) false false.

(** A tile layer whose cell at (x, y) holds the tile [perRow * y + x]. *)
Definition sequentialLayer (layerName : string) (w h perRow : Z) : Layer :=
  mkLayer layerName w h true (fun x y => plainCell (perRow * y + x)).

(** A layer that is not a tile layer (an object layer, say); the host
    gives it no cells. *)
Definition objectLayer (layerName : string) (w h : Z) : Layer :=
  mkLayer layerName w h false (fun _ _ => blankCell).

Definition roundTripMap : TileMap :=
  mkTileMap 32 32 [sequentialLayer "Ground" 32 32 32].

(** Two screenblocks side by side. *)
Definition wideLayer : Layer := sequentialLayer "Ground" 64 32 64.
Definition wideMap : TileMap := mkTileMap 64 32 [wideLayer].

(** A 32x32 map that holds the 64x32 layer: the layer's size is its own
    and differs from the map's. *)
Definition mismatchedMap : TileMap := mkTileMap 32 32 [wideLayer].

(** A 16x16 map whose only layer is an object layer. *)
Definition objectsMap : TileMap := mkTileMap 16 16 [objectLayer "Objects" 16 16].

(** Two hosts' objects for one and the same 32x32 map: the cell functions
    differ as functions and agree on every cell. *)
Definition mirroredMap : TileMap :=
  mkTileMap 32 32
    [mkLayer "Ground" 32 32 true (fun x y => plainCell (x + 32 * y))].

(** The characters of the class [a-zA-Z0-9-_], written out. *)
Definition classCharacters : string :=
  "abcdefghijklmnopqrstuvwxyzABCDEFGHIJKLMNOPQRSTUVWXYZ0123456789-_".

(** A map without tiles: its width and height are zero. *)
Definition emptyMap : TileMap := mkTileMap 0 0 [].

(** Tile 1024 of a large tileset, not flipped. *)
Definition bigTileCell : Cell := mkCell (IdNumber 1024) false false.

(* ================================================================== *)
(** * Reading an emitted array back *)
(* ================================================================== *)

(** The reader of the round-trip property: split the array body on
    commas, and in each piece decode the value that starts at its "0x"
    prefix.  A piece that holds no such value (the text after a trailing
    comma) gives no entry. *)
Module Reader.

Fixpoint splitOn (sep : ascii) (s : string) : list string :=
  match s with
  | EmptyString => [EmptyString]
  | String c s' =>
      if Ascii.eqb c sep then EmptyString :: splitOn sep s'
      else match splitOn sep s' with
           | piece :: pieces => String c piece :: pieces
           | [] => [String c EmptyString]
           end
  end.

Definition starts0x (s : string) : bool :=
  match s with
  | String a (String b _) => (Ascii.eqb a "0" && Ascii.eqb b "x")%bool
  | _ => false
  end.

(** The piece from its first "0x" on. *)
Fixpoint from0x (s : string) : option string :=
  match s with
  | EmptyString => None
  | String c s' => if starts0x (String c s') then Some (String c s') else from0x s'
  end.

Definition pieceEntry (piece : string) : list string :=
  match from0x piece with
  | Some token => [token]
  | None => []
  end.

(** The entries of an array body, as the tokens written. *)
Definition entries (body : string) : list string :=
  flat_map pieceEntry (splitOn ","%char body).

Definition hexDigit (c : ascii) : option Z :=
  let n := nat_of_ascii c in
  if ((48 <=? n) && (n <=? 57))%nat%bool then Some (Z.of_nat (n - 48))
  else if ((65 <=? n) && (n <=? 70))%nat%bool then Some (Z.of_nat (n - 55))
  else if ((97 <=? n) && (n <=? 102))%nat%bool then Some (Z.of_nat (n - 87))
  else None.

Fixpoint hexDigits (acc : Z) (s : string) : option Z :=
  match s with
  | EmptyString => Some acc
  | String c s' =>
      match hexDigit c with
      | Some d => hexDigits (16 * acc + d) s'
      | None => None
      end
  end.

(** The number a token "0x..." denotes. *)
Definition hexValue (token : string) : option Z :=
  match token with
  | String a (String b (String c digits)) =>
      if (Ascii.eqb a "0" && Ascii.eqb b "x")%bool
      then hexDigits 0 (String c digits) else None
  | _ => None
  end.

Definition values (body : string) : list (option Z) :=
  map hexValue (entries body).

End Reader.

(* ================================================================== *)
(** * Predicates and auxiliary functions of the proofs *)
(* ================================================================== *)

(** [lacks c s]: the character [c] does not occur in [s]. *)
Fixpoint lacks (c : ascii) (s : string) : bool :=
  match s with
  | EmptyString => true
  | String a s' => (negb (Ascii.eqb a c) && lacks c s')%bool
  end.

(** Text between entries: indentation, line ends, comments. *)
Definition filler (s : string) : Prop :=
  lacks ","%char s = true /\ lacks "x"%char s = true.

(** [Emits text tokens]: [text] is a run of entries "0x..." each followed
    by a comma, with filler around them, and [tokens] lists the entries in
    order. *)
Inductive Emits : string -> list string -> Prop :=
| Emits_end : Emits EmptyString []
| Emits_filler (j text : string) (tokens : list string) :
    filler j -> Emits text tokens -> Emits (j ++ text) tokens
| Emits_entry (digits text : string) (tokens : list string) :
    lacks ","%char digits = true ->
    Emits text tokens ->
    Emits (("0x" ++ digits) ++ "," ++ text) (("0x" ++ digits) :: tokens).

(** [EmitsThen suffix text tokens]: [text] emits [tokens] and then ends
    with [suffix], right after the last comma or filler. *)
Definition EmitsThen (suffix text : string) (tokens : list string) : Prop :=
  exists front, text = front ++ suffix /\ Emits front tokens.

(** The concatenation of a list of texts. *)
Fixpoint joinAll (texts : list string) : string :=
  match texts with
  | [] => EmptyString
  | t :: ts => t ++ joinAll ts
  end.

(** The text a loop appends when its body appends [g st a] in state [st]
    and moves to the state [next st a]. *)
Fixpoint textFrom {A St : Type} (g : St -> A -> string) (next : St -> A -> St)
    (st : St) (xs : list A) : string :=
  match xs with
  | [] => EmptyString
  | a :: xs' => g st a ++ textFrom g next (next st a) xs'
  end.

Fixpoint stateFrom {A St : Type} (next : St -> A -> St) (st : St) (xs : list A) : St :=
  match xs with
  | [] => st
  | a :: xs' => stateFrom next (next st a) xs'
  end.

(** Two map models with the same observable content: the host may hand
    the same map through different objects. *)
Definition sameLayer (l1 l2 : Layer) : Prop :=
  name l1 = name l2 /\ width l1 = width l2 /\ height l1 = height l2
  /\ isTileLayer l1 = isTileLayer l2
  /\ forall x y, cellAt l1 x y = cellAt l2 x y.

Definition sameMap (m1 m2 : TileMap) : Prop :=
  map_width m1 = map_width m2 /\ map_height m1 = map_height m2
  /\ Forall2 sameLayer (layers m1) (layers m2).

(** The parts of the regular format's text, for one layer. *)
Module RegularText.

Definition cellCoords (j k y x : nat) : Z * Z :=
  (Z.of_nat x + Regular.SCREENBLOCKWIDTH * Z.of_nat k,
   Z.of_nat y + Regular.SCREENBLOCKHEIGHT * Z.of_nat j).

Definition token (l : Layer) (j k y x : nat) : string :=
  Regular.entryText (cellAt l (fst (cellCoords j k y x)) (snd (cellCoords j k y x))).

Definition rowTokens (l : Layer) (j k y : nat) : list string :=
  map (token l j k y) (seq 0 32).

Definition blockTokens (l : Layer) (j k : nat) : list string :=
  flat_map (rowTokens l j k) (seq 0 32).

Definition gridRowTokens (l : Layer) (nx j : nat) : list string :=
  flat_map (blockTokens l j) (seq 0 nx).

(** All entries of a layer of [nx] by [ny] screenblocks, in the order of
    the four nested loops. *)
Definition layerTokens (l : Layer) (nx ny : nat) : list string :=
  flat_map (gridRowTokens l nx) (seq 0 ny).

Definition rowText (l : Layer) (j k y : nat) : string :=
  "    " ++ joinAll (map (fun x => token l j k y x ++ ", ") (seq 0 32)) ++ LF.

Definition blockText (l : Layer) (j : nat) (screenBlockID : Z) (k : nat) : string :=
  ("    // Screeblock " ++ numberToString screenBlockID ++ LF)
    ++ joinAll (map (rowText l j k) (seq 0 32)) ++ LF.

Definition gridRowText (l : Layer) (nx : nat) (screenBlockID : Z) (j : nat) : string :=
  textFrom (blockText l j) (fun id _ => id + 1) screenBlockID (seq 0 nx).

Definition layerText (l : Layer) (nx ny : nat) : string :=
  textFrom (gridRowText l nx) (fun id _ => id + Z.of_nat nx) 0 (seq 0 ny).

(** What the turn of a layer appends to the source text. *)
Definition layerSource (tilemapLength : Z) (l : Layer) : string :=
  snd (Regular.layerStep tilemapLength (EmptyString, EmptyString) l).

End RegularText.

(* ================================================================== *)
(** * Further auxiliary definitions *)
(* ================================================================== *)

(** [EmitsThenComma suffix text tokens]: as [EmitsThen], and what is
    emitted ends with the comma of the last entry. *)
Definition EmitsThenComma (suffix text : string) (tokens : list string) : Prop :=
  exists front, text = (front ++ ",") ++ suffix /\ Emits (front ++ ",") tokens.

(** The parts of the affine format's text, for one layer of a map that
    is [w] cells wide and [h] cells high. *)
Module AffineText.

Definition token (l : Layer) (y x : nat) : string :=
  Affine.entryText (cellAt l (Z.of_nat x) (Z.of_nat y)).

Definition rowTokens (l : Layer) (w y : nat) : list string :=
  map (token l y) (seq 0 w).

(** All entries of a layer, in the order of the two nested loops. *)
Definition layerTokens (l : Layer) (w h : nat) : list string :=
  flat_map (rowTokens l w) (seq 0 h).

Definition rowText (l : Layer) (w y : nat) : string :=
  "    " ++ joinAll (map (fun x => token l y x ++ ", ") (seq 0 w)) ++ LF.

Definition layerText (l : Layer) (w h : nat) : string :=
  joinAll (map (rowText l w) (seq 0 h)).

(** What the turn of a layer appends to the source text. *)
Definition layerSource (p_map : TileMap) (tilemapLength : Z) (l : Layer) : string :=
  snd (Affine.layerStep p_map tilemapLength (EmptyString, EmptyString) l).

End AffineText.

(** Layers that agree on what the affine format reads: the name, the
    kind, and the tile ids of the cells within [w] by [h]. *)
Definition sameTileIdsWithin (w h : Z) (l1 l2 : Layer) : Prop :=
  name l1 = name l2 /\ isTileLayer l1 = isTileLayer l2
  /\ forall x y, 0 <= x < w -> 0 <= y < h ->
       tileId (cellAt l1 x y) = tileId (cellAt l2 x y).

(** Layers that agree on what the regular format reads: the name, the
    size, the kind, and the cells within the layer's screenblocks. *)
Definition sameCellsWithinBlocks (l1 l2 : Layer) : Prop :=
  name l1 = name l2 /\ width l1 = width l2 /\ height l1 = height l2
  /\ isTileLayer l1 = isTileLayer l2
  /\ forall x y,
       0 <= x < 32 * Z.of_nat (countBelowQuotient (width l1) 32) ->
       0 <= y < 32 * Z.of_nat (countBelowQuotient (height l1) 32) ->
       cellAt l1 x y = cellAt l2 x y.

(** A cell without flips. *)
Definition unflipped (c : Cell) : Prop :=
  flippedHorizontally c = false /\ flippedVertically c = false.

(** [inside w h x y]: the cell (x, y) lies within [w] by [h]. *)
Definition inside (w h x y : Z) : bool :=
  ((0 <=? x) && (x <? w) && (0 <=? y) && (y <? h))%bool.

(** A 16x16 map with an object layer before its tile layer. *)
Definition affineSampleMap : TileMap :=
  mkTileMap 16 16 [objectLayer "Objects" 16 16; sequentialLayer "Ground" 16 16 16].

(** A tile layer whose size is no multiple of 32, and one without width. *)
Definition raggedLayer : Layer := sequentialLayer "Ground" 40 20 40.
Definition flatLayer : Layer := sequentialLayer "Ground" 0 32 0.

(** Two 16x16 maps with the same tile ids inside the map: the second
    has every cell flipped, other cells outside, and a layer of another
    size. *)
Definition plainMap16 : TileMap := mkTileMap 16 16 [sequentialLayer "Ground" 16 16 16].
Definition flippedMap16 : TileMap :=
  mkTileMap 16 16
    [mkLayer "Ground" 99 7 true
       (fun x y => if inside 16 16 x y
                   then mkCell (IdNumber (16 * y + x)) true true
                   else mkCell (IdNumber 5) false true)].

(** The round-trip map with other cells outside its 32x32 cells. *)
Definition paddedMap : TileMap :=
  mkTileMap 32 32
    [mkLayer "Ground" 32 32 true
       (fun x y => if inside 32 32 x y then plainCell (32 * y + x) else plainCell 7)].

(* ================================================================== *)
(** * Strings: append, length, slice *)
(* ================================================================== *)

Lemma str_app_assoc (a b c : string) : (a ++ b) ++ c = a ++ (b ++ c).
Proof. induction a as [|ch a IH]; simpl; [reflexivity | now rewrite IH]. Qed.

Lemma str_app_nil_r (a : string) : a ++ EmptyString = a.
Proof. induction a as [|ch a IH]; simpl; [reflexivity | now rewrite IH]. Qed.

Lemma str_length_app (a b : string) :
  String.length (a ++ b) = (String.length a + String.length b)%nat.
Proof. induction a as [|ch a IH]; simpl; [reflexivity | now rewrite IH]. Qed.

Lemma str_app_inv_head (a b c : string) : a ++ b = a ++ c -> b = c.
Proof.
  induction a as [|ch a IH]; simpl; intros H; [exact H | injection H as H; auto].
Qed.

Lemma take_app_exact (a b : string) : take (String.length a) (a ++ b) = a.
Proof. induction a as [|ch a IH]; simpl; [now destruct b | now rewrite IH]. Qed.

(** Slicing a negative end off a text removes exactly its suffix of that
    length. *)
Lemma slice0_drop_suffix (a b : string) (e : Z) :
  e < 0 -> Z.of_nat (String.length b) = - e -> slice0 (a ++ b) e = a.
Proof.
  intros He Hb. unfold slice0.
  apply Z.ltb_lt in He. rewrite He.
  rewrite str_length_app, Nat2Z.inj_add, Hb.
  replace (Z.of_nat (String.length a) + - e + e) with (Z.of_nat (String.length a)) by lia.
  rewrite Z.max_l by lia.
  rewrite Nat2Z.id. apply take_app_exact.
Qed.

(** A text of at least [-e] characters splits into what the slice keeps
    and the [-e] characters it removes. *)
Lemma slice0_splits (s : string) (e : Z) :
  e < 0 -> - e <= Z.of_nat (String.length s) ->
  exists removed,
    s = slice0 s e ++ removed /\ Z.of_nat (String.length removed) = - e.
Proof.
  intros He Hlen. unfold slice0.
  assert (Hb : (e <? 0) = true) by now apply Z.ltb_lt.
  rewrite Hb, Z.max_l by lia.
  remember (Z.to_nat (Z.of_nat (String.length s) + e)) as n eqn:Hn.
  assert (Hle : (n <= String.length s)%nat) by lia.
  assert (Hsplit : forall m t, (m <= String.length t)%nat ->
            exists r, t = take m t ++ r
                      /\ String.length r = (String.length t - m)%nat).
  { clear. induction m as [|m IH]; intros t Hm.
    - exists t. split; [now destruct t | lia].
    - destruct t as [|ch t]; simpl in Hm; [lia|].
      destruct (IH t) as [r [Hr Hl]]; [lia|].
      exists r. simpl. split; [now rewrite <- Hr | exact Hl]. }
  destruct (Hsplit n s Hle) as [r [Hr Hl]].
  exists r. split; [exact Hr | lia].
Qed.

(** A negative slice that stays within the last part of a text leaves
    what is before that part alone. *)
Lemma slice0_app_keep (a b : string) (e : Z) :
  e < 0 -> - e <= Z.of_nat (String.length b) ->
  slice0 (a ++ b) e = a ++ slice0 b e.
Proof.
  intros He Hlen.
  destruct (slice0_splits b e He Hlen) as [removed [Hb Hr]].
  rewrite Hb at 1. rewrite <- str_app_assoc.
  now apply slice0_drop_suffix.
Qed.

Lemma lacks_app (c : ascii) (a b : string) :
  lacks c (a ++ b) = (lacks c a && lacks c b)%bool.
Proof.
  induction a as [|ch a IH]; simpl; [reflexivity|].
  now rewrite IH, andb_assoc.
Qed.

Lemma filler_app (a b : string) : filler a -> filler b -> filler (a ++ b).
Proof.
  intros [Ha1 Ha2] [Hb1 Hb2]. split; rewrite lacks_app; now apply andb_true_intro.
Qed.

Lemma filler_empty : filler EmptyString.
Proof. now split. Qed.

(* ================================================================== *)
(** * The reader on emitted text *)
(* ================================================================== *)

Lemma splitOn_no_sep (sep : ascii) (a : string) :
  lacks sep a = true -> Reader.splitOn sep a = [a].
Proof.
  induction a as [|c a IH]; simpl; [reflexivity|].
  intros H. apply andb_prop in H as [Hc Ha].
  apply negb_true_iff in Hc. rewrite Hc, (IH Ha). reflexivity.
Qed.

Lemma splitOn_at_sep (sep : ascii) (a rest : string) :
  lacks sep a = true ->
  Reader.splitOn sep (a ++ String sep rest) = a :: Reader.splitOn sep rest.
Proof.
  induction a as [|c a IH]; simpl.
  - intros _. now rewrite Ascii.eqb_refl.
  - intros H. apply andb_prop in H as [Hc Ha].
    apply negb_true_iff in Hc. rewrite Hc, (IH Ha). reflexivity.
Qed.

Lemma from0x_no_x (j : string) : lacks "x"%char j = true -> Reader.from0x j = None.
Proof.
  induction j as [|c j IH]; [reflexivity|].
  intros H. simpl in H. apply andb_prop in H as [Hc Hj].
  apply negb_true_iff in Hc.
  change (Reader.from0x (String c j))
    with (if Reader.starts0x (String c j) then Some (String c j) else Reader.from0x j).
  assert (Hs : Reader.starts0x (String c j) = false).
  { destruct j as [|d j]; [reflexivity|]. simpl.
    simpl in Hj. apply andb_prop in Hj as [Hd _]. apply negb_true_iff in Hd.
    rewrite Hd. apply andb_false_r. }
  rewrite Hs. exact (IH Hj).
Qed.

Lemma from0x_after_filler (j digits : string) :
  lacks "x"%char j = true ->
  Reader.from0x (j ++ "0x" ++ digits) = Some ("0x" ++ digits).
Proof.
  induction j as [|c j IH]; [reflexivity|].
  intros H. simpl in H. apply andb_prop in H as [Hc Hj].
  apply negb_true_iff in Hc.
  change (Reader.from0x (String c j ++ "0x" ++ digits))
    with (if Reader.starts0x (String c (j ++ "0x" ++ digits))
          then Some (String c (j ++ "0x" ++ digits))
          else Reader.from0x (j ++ "0x" ++ digits)).
  assert (Hs : Reader.starts0x (String c (j ++ "0x" ++ digits)) = false).
  { destruct j as [|d j]; simpl.
    - apply andb_false_r.
    - simpl in Hj. apply andb_prop in Hj as [Hd _]. apply negb_true_iff in Hd.
      rewrite Hd. apply andb_false_r. }
  rewrite Hs. exact (IH Hj).
Qed.

Lemma entries_filler (j : string) : filler j -> Reader.entries j = [].
Proof.
  intros [Hc Hx]. unfold Reader.entries.
  rewrite (splitOn_no_sep _ _ Hc). simpl.
  unfold Reader.pieceEntry. now rewrite (from0x_no_x _ Hx).
Qed.

Lemma entries_entry (j digits rest : string) :
  filler j -> lacks ","%char digits = true ->
  Reader.entries (j ++ ("0x" ++ digits) ++ "," ++ rest)
  = ("0x" ++ digits) :: Reader.entries rest.
Proof.
  intros [Hc Hx] Hd. unfold Reader.entries.
  rewrite <- str_app_assoc.
  change ("," ++ rest) with (String ","%char rest).
  rewrite splitOn_at_sep.
  - cbn [flat_map]. unfold Reader.pieceEntry at 1.
    rewrite (from0x_after_filler _ _ Hx). reflexivity.
  - rewrite lacks_app, Hc. simpl. exact Hd.
Qed.

(** Reading emitted text back gives the tokens that were written, whatever
    filler precedes it. *)
Lemma Emits_read (text : string) (tokens : list string) :
  Emits text tokens ->
  forall j, filler j -> Reader.entries (j ++ text) = tokens.
Proof.
  induction 1 as [|j' text tokens Hj' _ IH|digits text tokens Hd _ IH]; intros j Hj.
  - rewrite str_app_nil_r. now apply entries_filler.
  - rewrite <- str_app_assoc. apply IH. now apply filler_app.
  - rewrite entries_entry by assumption.
    f_equal. apply (IH EmptyString filler_empty).
Qed.

Lemma Emits_entries (text : string) (tokens : list string) :
  Emits text tokens -> Reader.entries text = tokens.
Proof. intros H. exact (Emits_read _ _ H EmptyString filler_empty). Qed.

Lemma Emits_app (a b : string) (ka kb : list string) :
  Emits a ka -> Emits b kb -> Emits (a ++ b) (ka ++ kb)%list.
Proof.
  induction 1 as [|j text tokens Hj _ IH|digits text tokens Hd _ IH]; intros Hb.
  - exact Hb.
  - rewrite str_app_assoc. apply Emits_filler; auto.
  - rewrite !str_app_assoc. simpl app.
    apply (Emits_entry digits (text ++ b) (tokens ++ kb)%list Hd (IH Hb)).
Qed.

Lemma Emits_only_filler (j : string) : filler j -> Emits j [].
Proof.
  intros Hj. rewrite <- (str_app_nil_r j). apply Emits_filler; [exact Hj | constructor].
Qed.

Lemma EmitsThen_prepend (s a b : string) (ka kb : list string) :
  Emits a ka -> EmitsThen s b kb -> EmitsThen s (a ++ b) (ka ++ kb)%list.
Proof.
  intros Ha [front [-> Hf]]. exists (a ++ front). split.
  - now rewrite str_app_assoc.
  - now apply Emits_app.
Qed.

Lemma EmitsThen_extend (s j b : string) (k : list string) :
  EmitsThen s b k -> EmitsThen (s ++ j) (b ++ j) k.
Proof.
  intros [front [-> Hf]]. exists front. split; [apply str_app_assoc | exact Hf].
Qed.

Lemma EmitsThen_all (s b : string) (k : list string) :
  filler s -> EmitsThen s b k -> Emits b k.
Proof.
  intros Hs [front [-> Hf]].
  rewrite <- (app_nil_r k). apply Emits_app; [exact Hf | now apply Emits_only_filler].
Qed.

(* ================================================================== *)
(** * What the loop bodies write for a cell *)
(* ================================================================== *)

Lemma regular_cellStep_entry (l : Layer) (j k y x : nat) (src : string) :
  Regular.cellStep l j k y src x
  = src ++ (Regular.entryText
              (cellAt l (Z.of_nat x + 32 * Z.of_nat k) (Z.of_nat y + 32 * Z.of_nat j))
            ++ ", ").
Proof.
  unfold Regular.cellStep, Regular.entryText, Regular.screenEntry.
  change Regular.SCREENBLOCKWIDTH with 32. change Regular.SCREENBLOCKHEIGHT with 32.
  destruct (looseEqMinusOne _); reflexivity.
Qed.

Lemma affine_cellStep_entry (l : Layer) (y x : nat) (src : string) :
  Affine.cellStep l y src x
  = src ++ (Affine.entryText (cellAt l (Z.of_nat x) (Z.of_nat y)) ++ ", ").
Proof.
  unfold Affine.cellStep, Affine.entryText.
  destruct (looseEqMinusOne _); reflexivity.
Qed.

(* ================================================================== *)
(** * The characters of printed numbers *)
(* ================================================================== *)

Lemma lacks_decimal_uint (c : ascii) (d : Decimal.uint) :
  c = ","%char \/ c = "x"%char ->
  lacks c (DecimalString.NilEmpty.string_of_uint d) = true.
Proof.
  intros [-> | ->]; induction d; simpl; auto.
Qed.

Lemma lacks_numberToString (c : ascii) (n : Z) :
  c = ","%char \/ c = "x"%char -> lacks c (numberToString n) = true.
Proof.
  intros Hc. unfold numberToString, DecimalString.NilZero.string_of_int.
  assert (Hu : forall d, lacks c (DecimalString.NilZero.string_of_uint d) = true).
  { intros d. unfold DecimalString.NilZero.string_of_uint.
    destruct d; try apply (lacks_decimal_uint c _ Hc).
    destruct Hc as [-> | ->]; reflexivity. }
  destruct (Z.to_int n) as [d|d]; [apply Hu|].
  simpl. rewrite Hu. destruct Hc as [-> | ->]; reflexivity.
Qed.

Lemma lacks_comma_upper_hex_uint (d : Hexadecimal.uint) :
  lacks ","%char (toUpperCase (HexadecimalString.NilEmpty.string_of_uint d)) = true.
Proof. induction d; simpl; auto. Qed.

Lemma lacks_comma_upper_hex (n : Z) :
  lacks ","%char (toUpperCase (toString16 n)) = true.
Proof.
  unfold toString16, HexadecimalString.NilZero.string_of_int.
  assert (Hu : forall d,
            lacks ","%char (toUpperCase (HexadecimalString.NilZero.string_of_uint d)) = true).
  { intros d. unfold HexadecimalString.NilZero.string_of_uint.
    destruct d; try apply lacks_comma_upper_hex_uint. reflexivity. }
  destruct (Z.to_hex_int n) as [d|d]; [apply Hu|].
  change (toUpperCase (String "-" (HexadecimalString.NilZero.string_of_uint d)))
    with (String (upperChar "-")
            (toUpperCase (HexadecimalString.NilZero.string_of_uint d))).
  simpl. apply Hu.
Qed.

Lemma lacks_repeatChar (c a : ascii) (n : nat) :
  Ascii.eqb a c = false -> lacks c (repeatChar a n) = true.
Proof. intros H. induction n as [|n IH]; simpl; [reflexivity | now rewrite H]. Qed.

(** [decimalToHex] writes "0x" and then no comma. *)
Lemma decimalToHex_shape (n : Z) (p : nat) :
  exists digits, decimalToHex n p = "0x" ++ digits /\ lacks ","%char digits = true.
Proof.
  exists (padStart p "0"%char (toUpperCase (toString16 n))). split; [reflexivity|].
  unfold padStart. rewrite lacks_app, lacks_comma_upper_hex.
  now rewrite lacks_repeatChar.
Qed.

Lemma regular_entryText_shape (c : Cell) :
  exists digits, Regular.entryText c = "0x" ++ digits /\ lacks ","%char digits = true.
Proof.
  unfold Regular.entryText. destruct (looseEqMinusOne (tileId c)).
  - exists "0000". now split.
  - apply decimalToHex_shape.
Qed.

(** One written cell, entry and separator, is an emitted entry followed
    by a space. *)
Lemma regular_cell_emits (c : Cell) :
  EmitsThen " " (Regular.entryText c ++ ", ") [Regular.entryText c].
Proof.
  destruct (regular_entryText_shape c) as [digits [-> Hd]].
  exists (("0x" ++ digits) ++ "," ++ EmptyString). split.
  - now rewrite !str_app_assoc.
  - apply Emits_entry; [exact Hd | constructor].
Qed.

(* ================================================================== *)
(** * Loops that only append *)
(* ================================================================== *)

Lemma fold_left_appends {A : Type} (body : string -> A -> string) (g : A -> string) :
  (forall s a, body s a = s ++ g a) ->
  forall xs s, fold_left body xs s = s ++ joinAll (map g xs).
Proof.
  intros Hbody. induction xs as [|a xs IH]; intros s; simpl.
  - now rewrite str_app_nil_r.
  - now rewrite IH, Hbody, str_app_assoc.
Qed.

Lemma fold_left_appends_state {A St : Type}
    (body : string * St -> A -> string * St)
    (g : St -> A -> string) (next : St -> A -> St) :
  (forall s st a, body (s, st) a = (s ++ g st a, next st a)) ->
  forall xs s st,
    fold_left body xs (s, st) = (s ++ textFrom g next st xs, stateFrom next st xs).
Proof.
  intros Hbody. induction xs as [|a xs IH]; intros s st; simpl.
  - now rewrite str_app_nil_r.
  - now rewrite Hbody, IH, str_app_assoc.
Qed.

Lemma fold_left_pointwise {A St : Type} (f g : St -> A -> St) :
  (forall s a, f s a = g s a) ->
  forall xs s, fold_left f xs s = fold_left g xs s.
Proof.
  intros H. induction xs as [|a xs IH]; intros s; simpl; [reflexivity|].
  now rewrite H, IH.
Qed.

Lemma stateFrom_counter (d : Z) {A : Type} (xs : list A) (id : Z) :
  stateFrom (fun i _ => i + d) id xs = id + d * Z.of_nat (List.length xs).
Proof.
  revert id. induction xs as [|a xs IH]; intros id; simpl stateFrom.
  - simpl. lia.
  - rewrite IH. cbn [List.length]. lia.
Qed.

(** A run of texts that each emit their tokens and end with the same
    filler: the whole run emits all tokens and ends with that filler. *)
Lemma EmitsThen_joinAll {A : Type} (s : string) (f : A -> string)
    (tok : A -> list string) :
  filler s ->
  (forall a, EmitsThen s (f a) (tok a)) ->
  forall xs, xs <> [] -> EmitsThen s (joinAll (map f xs)) (flat_map tok xs).
Proof.
  intros Hs Hf. induction xs as [|a xs IH]; intros Hne; [congruence|].
  destruct xs as [|b xs].
  - simpl. rewrite str_app_nil_r, app_nil_r. apply Hf.
  - change (joinAll (map f (a :: b :: xs))) with (f a ++ joinAll (map f (b :: xs))).
    change (flat_map tok (a :: b :: xs)) with (tok a ++ flat_map tok (b :: xs))%list.
    apply EmitsThen_prepend; [|apply IH; discriminate].
    apply (EmitsThen_all s); [exact Hs | apply Hf].
Qed.

Lemma EmitsThen_textFrom {A St : Type} (s : string) (g : St -> A -> string)
    (next : St -> A -> St) (tok : A -> list string) :
  filler s ->
  (forall st a, EmitsThen s (g st a) (tok a)) ->
  forall xs st, xs <> [] -> EmitsThen s (textFrom g next st xs) (flat_map tok xs).
Proof.
  intros Hs Hg. induction xs as [|a xs IH]; intros st Hne; [congruence|].
  destruct xs as [|b xs].
  - simpl. rewrite str_app_nil_r, app_nil_r. apply Hg.
  - change (textFrom g next st (a :: b :: xs))
      with (g st a ++ textFrom g next (next st a) (b :: xs)).
    change (flat_map tok (a :: b :: xs)) with (tok a ++ flat_map tok (b :: xs))%list.
    apply EmitsThen_prepend; [|apply IH; discriminate].
    apply (EmitsThen_all s); [exact Hs | apply Hg].
Qed.

(* ================================================================== *)
(** * The regular format: the text of one tile layer *)
(* ================================================================== *)

Lemma map_singletons {A B : Type} (f : A -> B) (xs : list A) :
  map f xs = flat_map (fun x => [f x]) xs.
Proof. induction xs as [|a xs IH]; simpl; [reflexivity | now rewrite IH]. Qed.

Section RegularLayerText.

Variable l : Layer.

Lemma regular_rowStep_text (j k y : nat) (src : string) :
  Regular.rowStep l j k src y = src ++ RegularText.rowText l j k y.
Proof.
  unfold Regular.rowStep, forLoop, RegularText.rowText.
  change (Z.to_nat Regular.SCREENBLOCKWIDTH) with 32%nat.
  rewrite (fold_left_appends (Regular.cellStep l j k y)
             (fun x => RegularText.token l j k y x ++ ", "))
    by (intros; apply regular_cellStep_entry).
  now rewrite !str_app_assoc.
Qed.

Lemma regular_blockStep_text (j k : nat) (src : string) (id : Z) :
  Regular.blockStep l j (src, id) k = (src ++ RegularText.blockText l j id k, id + 1).
Proof.
  unfold Regular.blockStep, forLoop, RegularText.blockText.
  change (Z.to_nat Regular.SCREENBLOCKHEIGHT) with 32%nat.
  rewrite (fold_left_appends (Regular.rowStep l j k) (RegularText.rowText l j k))
    by (intros; apply regular_rowStep_text).
  now rewrite !str_app_assoc.
Qed.

Lemma regular_gridRow_text (nx j : nat) (src : string) (id : Z) :
  forLoop nx (Regular.blockStep l j) (src, id)
  = (src ++ RegularText.gridRowText l nx id j, id + Z.of_nat nx).
Proof.
  unfold forLoop, RegularText.gridRowText.
  rewrite (fold_left_appends_state (Regular.blockStep l j)
             (RegularText.blockText l j) (fun id _ => id + 1))
    by (intros; apply regular_blockStep_text).
  rewrite (stateFrom_counter 1), length_seq. f_equal. lia.
Qed.

Lemma regular_grid_text (nx ny : nat) (src : string) :
  forLoop ny (fun st j => forLoop nx (Regular.blockStep l j) st) (src, 0)
  = (src ++ RegularText.layerText l nx ny, Z.of_nat nx * Z.of_nat ny).
Proof.
  unfold forLoop at 1. unfold RegularText.layerText.
  rewrite (fold_left_appends_state
             (fun st j => forLoop nx (Regular.blockStep l j) st)
             (RegularText.gridRowText l nx) (fun id _ => id + Z.of_nat nx))
    by (intros; apply regular_gridRow_text).
  now rewrite stateFrom_counter, length_seq.
Qed.

(** The loops of a tile layer only append to the text they are given. *)
Lemma regular_tileLoops_text (src : string) :
  Regular.tileLoops l src
  = src ++ RegularText.layerText l
             (countBelowQuotient (width l) Regular.SCREENBLOCKWIDTH)
             (countBelowQuotient (height l) Regular.SCREENBLOCKHEIGHT).
Proof. unfold Regular.tileLoops. now rewrite regular_grid_text. Qed.

Lemma filler_spaces_row : filler (" " ++ LF).
Proof. now split. Qed.

Lemma filler_spaces_block : filler ((" " ++ LF) ++ LF).
Proof. now split. Qed.

Lemma regular_row_emits (j k y : nat) :
  EmitsThen (" " ++ LF) (RegularText.rowText l j k y) (RegularText.rowTokens l j k y).
Proof.
  unfold RegularText.rowText, RegularText.rowTokens.
  rewrite <- str_app_assoc.
  apply EmitsThen_extend.
  change (map (RegularText.token l j k y) (seq 0 32))
    with ([] ++ map (RegularText.token l j k y) (seq 0 32))%list.
  apply EmitsThen_prepend.
  - apply Emits_only_filler. now split.
  - rewrite map_singletons.
    apply (EmitsThen_joinAll " " (fun x => RegularText.token l j k y x ++ ", ")
             (fun x => [RegularText.token l j k y x])).
    + now split.
    + intros x. apply regular_cell_emits.
    + discriminate.
Qed.

Lemma regular_block_emits (j k : nat) (id : Z) :
  EmitsThen ((" " ++ LF) ++ LF) (RegularText.blockText l j id k)
    (RegularText.blockTokens l j k).
Proof.
  unfold RegularText.blockText, RegularText.blockTokens.
  rewrite <- (app_nil_l (flat_map _ _)).
  apply EmitsThen_prepend.
  - apply Emits_only_filler. split.
    + rewrite !lacks_app, lacks_numberToString by now left. reflexivity.
    + rewrite !lacks_app, lacks_numberToString by now right. reflexivity.
  - apply EmitsThen_extend.
    apply (EmitsThen_joinAll (" " ++ LF) (RegularText.rowText l j k)
             (RegularText.rowTokens l j k)).
    + exact filler_spaces_row.
    + intros y. apply regular_row_emits.
    + discriminate.
Qed.

Lemma seq_nonempty (n : nat) : (0 < n)%nat -> seq 0 n <> [].
Proof. destruct n; [lia | discriminate]. Qed.

Lemma regular_layer_emits (nx ny : nat) :
  (0 < nx)%nat -> (0 < ny)%nat ->
  EmitsThen ((" " ++ LF) ++ LF) (RegularText.layerText l nx ny)
    (RegularText.layerTokens l nx ny).
Proof.
  intros Hx Hy. unfold RegularText.layerText, RegularText.layerTokens.
  apply (EmitsThen_textFrom ((" " ++ LF) ++ LF)); [exact filler_spaces_block| |now apply seq_nonempty].
  intros id j. unfold RegularText.gridRowText, RegularText.gridRowTokens.
  apply (EmitsThen_textFrom ((" " ++ LF) ++ LF)); [exact filler_spaces_block| |now apply seq_nonempty].
  intros id' k. apply regular_block_emits.
Qed.

End RegularLayerText.

(* ================================================================== *)
(** * Positions in nested loops *)
(* ================================================================== *)

Lemma length_flat_map_uniform {A B : Type} (f : A -> list B) (c : nat) :
  (forall a, List.length (f a) = c) ->
  forall xs, List.length (flat_map f xs) = (List.length xs * c)%nat.
Proof.
  intros Hf. induction xs as [|a xs IH]; simpl; [reflexivity|].
  now rewrite length_app, Hf, IH.
Qed.

Lemma nth_error_flat_map_seq {B : Type} (f : nat -> list B) (c : nat) :
  (forall a, List.length (f a) = c) ->
  forall n s i r, (i < n)%nat -> (r < c)%nat ->
    nth_error (flat_map f (seq s n)) (i * c + r) = nth_error (f (s + i)%nat) r.
Proof.
  intros Hf. induction n as [|n IH]; intros s i r Hi Hr; [lia|].
  cbn [seq flat_map]. destruct i as [|i].
  - rewrite nth_error_app1 by (rewrite Hf; lia).
    now rewrite Nat.add_0_r.
  - rewrite nth_error_app2 by (rewrite Hf; simpl; lia).
    rewrite Hf.
    replace (S i * c + r - c)%nat with (i * c + r)%nat by (simpl; lia).
    rewrite IH by lia. f_equal. f_equal. lia.
Qed.

Lemma nth_error_map_seq {B : Type} (f : nat -> B) (n s x : nat) :
  (x < n)%nat -> nth_error (map f (seq s n)) x = Some (f (s + x)%nat).
Proof.
  intros Hx. rewrite nth_error_map, nth_error_seq.
  apply Nat.ltb_lt in Hx. now rewrite Hx.
Qed.

Section RegularPositions.

Variable l : Layer.

Lemma length_rowTokens (j k y : nat) :
  List.length (RegularText.rowTokens l j k y) = 32%nat.
Proof. unfold RegularText.rowTokens. now rewrite length_map, length_seq. Qed.

Lemma length_blockTokens (j k : nat) :
  List.length (RegularText.blockTokens l j k) = (32 * 32)%nat.
Proof.
  unfold RegularText.blockTokens.
  rewrite (length_flat_map_uniform _ 32%nat) by apply length_rowTokens.
  now rewrite length_seq.
Qed.

Lemma length_gridRowTokens (nx j : nat) :
  List.length (RegularText.gridRowTokens l nx j) = (nx * (32 * 32))%nat.
Proof.
  unfold RegularText.gridRowTokens.
  rewrite (length_flat_map_uniform _ (32 * 32)%nat) by apply length_blockTokens.
  now rewrite length_seq.
Qed.

Lemma length_layerTokens (nx ny : nat) :
  List.length (RegularText.layerTokens l nx ny) = (ny * (nx * (32 * 32)))%nat.
Proof.
  unfold RegularText.layerTokens.
  rewrite (length_flat_map_uniform _ (nx * (32 * 32))%nat)
    by apply length_gridRowTokens.
  now rewrite length_seq.
Qed.

(** The entry of the cell (x, y) of screenblock (k, j) sits at the
    position the four loop counters give it. *)
Lemma nth_layerTokens (nx ny j k y x : nat) :
  (j < ny)%nat -> (k < nx)%nat -> (y < 32)%nat -> (x < 32)%nat ->
  nth_error (RegularText.layerTokens l nx ny)
    ((j * nx + k) * (32 * 32) + y * 32 + x)
  = Some (RegularText.token l j k y x).
Proof.
  intros Hj Hk Hy Hx.
  replace ((j * nx + k) * (32 * 32) + y * 32 + x)%nat
    with (j * (nx * (32 * 32)) + (k * (32 * 32) + (y * 32 + x)))%nat by lia.
  unfold RegularText.layerTokens.
  rewrite (nth_error_flat_map_seq _ (nx * (32 * 32))%nat)
    by (try apply length_gridRowTokens; nia).
  unfold RegularText.gridRowTokens.
  rewrite (nth_error_flat_map_seq _ (32 * 32)%nat)
    by (try apply length_blockTokens; lia).
  unfold RegularText.blockTokens.
  rewrite (nth_error_flat_map_seq _ 32%nat) by (try apply length_rowTokens; lia).
  unfold RegularText.rowTokens.
  now rewrite nth_error_map_seq by lia.
Qed.

End RegularPositions.

(* ================================================================== *)
(** * The loop bound over a quotient *)
(* ================================================================== *)

(** [countBelowQuotient] counts the loop turns: turn [i] runs exactly when
    [i < num / den] holds of the exact quotient. *)
Lemma countBelowQuotient_spec (num den : Z) (i : nat) :
  0 < den ->
  ((i < countBelowQuotient num den)%nat <-> Z.of_nat i * den < num).
Proof.
  intros Hden. unfold countBelowQuotient.
  pose proof (Z.div_mod (num + den - 1) den ltac:(lia)) as Hdm.
  pose proof (Z.mod_pos_bound (num + den - 1) den Hden) as Hb.
  set (q := (num + den - 1) / den) in *.
  split; intros H.
  - assert (Z.of_nat i < q) by lia. nia.
  - assert (Z.of_nat i < q) by nia. lia.
Qed.

Lemma countBelowQuotient_multiple (n : Z) :
  0 < n -> n mod 32 = 0 ->
  countBelowQuotient n 32 = Z.to_nat (n / 32) /\ 0 < n / 32.
Proof.
  intros Hn Hm. unfold countBelowQuotient.
  pose proof (Z.div_mod n 32 ltac:(lia)) as Hdm. rewrite Hm in Hdm.
  split; [|lia].
  f_equal. symmetry. apply (Z.div_unique _ _ _ 31); lia.
Qed.

(* ================================================================== *)
(** * The regular format: one turn of the layer loop *)
(* ================================================================== *)

(** A tile layer of [nx] by [ny] screenblocks, none of them zero: its
    turn appends the array definition, the opening brace, a body that
    reads back as the layer's entries in loop order, and the closing. *)
Lemma regular_tile_layer_source (len : Z) (hdr src : string) (l : Layer) (nx ny : nat) :
  isTileLayer l = true ->
  countBelowQuotient (width l) Regular.SCREENBLOCKWIDTH = nx ->
  countBelowQuotient (height l) Regular.SCREENBLOCKHEIGHT = ny ->
  (0 < nx)%nat -> (0 < ny)%nat ->
  exists body,
    Regular.layerStep len (hdr, src) l
    = (hdr ++ externDeclaration (sanitize (name l)) len,
       src ++ arrayDefinition (sanitize (name l)) len
           ++ "{" ++ LF ++ body ++ LF ++ "};" ++ LF ++ LF)
    /\ RegularText.layerText l nx ny = body ++ (" " ++ LF) ++ LF
    /\ Reader.entries body = RegularText.layerTokens l nx ny.
Proof.
  intros Htile Hnx Hny Hx Hy.
  destruct (regular_layer_emits l nx ny Hx Hy) as [front [Htext Hemits]].
  exists front. split; [|split].
  - unfold Regular.layerStep. rewrite Htile, regular_tileLoops_text, Hnx, Hny, Htext.
    f_equal. unfold closeArray.
    rewrite <- (str_app_assoc _ front), (slice0_drop_suffix _ ((" " ++ LF) ++ LF) (-3))
      by (reflexivity || lia).
    now rewrite !str_app_assoc.
  - exact Htext.
  - now apply Emits_entries.
Qed.

(* ================================================================== *)
(** * The regular format: the whole source text *)
(* ================================================================== *)

Lemma arrayDefinition_length (n : string) (len : Z) :
  (3 <= String.length (arrayDefinition n len))%nat.
Proof. unfold arrayDefinition. simpl. lia. Qed.

(** The turn of any layer only appends: the three characters its close
    step removes are always among those the turn itself has written. *)
Lemma regular_layerStep_appends (len : Z) (hdr src : string) (l : Layer) :
  Regular.layerStep len (hdr, src) l
  = (hdr ++ externDeclaration (sanitize (name l)) len,
     src ++ RegularText.layerSource len l).
Proof.
  unfold RegularText.layerSource, Regular.layerStep. cbn [snd]. f_equal.
  change (EmptyString ++ arrayDefinition (sanitize (name l)) len)
    with (arrayDefinition (sanitize (name l)) len).
  assert (Hclose : forall t,
            closeArray ((src ++ arrayDefinition (sanitize (name l)) len) ++ t)
            = src ++ closeArray (arrayDefinition (sanitize (name l)) len ++ t)).
  { intros t. unfold closeArray.
    rewrite (str_app_assoc src), slice0_app_keep, !str_app_assoc; [reflexivity | lia |].
    rewrite str_length_app.
    pose proof (arrayDefinition_length (sanitize (name l)) len). lia. }
  destruct (isTileLayer l).
  - rewrite !regular_tileLoops_text.
    rewrite (str_app_assoc (src ++ _)), (str_app_assoc (arrayDefinition _ _)).
    apply Hclose.
  - apply Hclose.
Qed.

Lemma regular_layers_append (len : Z) (ls : list Layer) (hdr src : string) :
  fold_left (Regular.layerStep len) ls (hdr, src)
  = (hdr ++ joinAll (map (fun l => externDeclaration (sanitize (name l)) len) ls),
     src ++ joinAll (map (RegularText.layerSource len) ls)).
Proof.
  revert hdr src. induction ls as [|l ls IH]; intros hdr src; cbn [fold_left map joinAll].
  - now rewrite !str_app_nil_r.
  - now rewrite regular_layerStep_appends, IH, !str_app_assoc.
Qed.

(** When the guard lets a map through, [write] commits the source text of
    [fileData] to the file with the extension c. *)
Lemma regular_write_commits (host : FileInfo) (p_map : TileMap) (p_fileName : string) :
  remainder (map_width p_map) 32 = 0 -> remainder (map_height p_map) 32 = 0 ->
  let fileBaseName := sanitize (completeBaseName host p_fileName) in
  let filePath := toNativeSeparators host (path host p_fileName ++ "/") in
  Regular.write host p_map p_fileName
  = mkOutcome None
      [ FileCommit (filePath ++ fileBaseName ++ ".h")
          (fst (Regular.fileData fileBaseName p_map));
        TiledLog ("Tilemap exported to " ++ filePath ++ fileBaseName ++ ".h");
        FileCommit (filePath ++ fileBaseName ++ ".c")
          (snd (Regular.fileData fileBaseName p_map));
        TiledLog ("Tilemap exported to " ++ filePath ++ fileBaseName ++ ".c") ].
Proof.
  intros Hw Hh fileBaseName filePath. unfold Regular.write.
  rewrite Hw, Hh. simpl negb. cbv iota beta. simpl orb. cbv iota.
  fold fileBaseName. fold filePath.
  now destruct (Regular.fileData fileBaseName p_map).
Qed.

(* ================================================================== *)
(** * C1: the order of the entries in the regular format *)
(* ================================================================== *)

(** C1, as the code has it.  In the format "gba", take a map whose width W
    and height H are positive multiples of 32 and a tile layer of it whose
    own width and height are W and H.  The source file [write] commits
    holds, right after the text of the layers before it, the layer's array
    definition, the opening brace, a body and the closing brace.  The body
    holds exactly W*H entries, and the entry of the cell
    (x + 32*k, y + 32*j) stands at index (j*(W/32) + k)*1024 + y*32 + x:
    screenblock rows outside, screenblock columns next, then the rows and
    the columns of the screenblock. *)
Theorem regular_entries_screenblock_major
    (host : FileInfo) (p_map : TileMap) (p_fileName : string)
    (before after : list Layer) (currentLayer : Layer) :
  let W := map_width p_map in
  let H := map_height p_map in
  let fileBaseName := sanitize (completeBaseName host p_fileName) in
  let filePath := toNativeSeparators host (path host p_fileName ++ "/") in
  let reached :=
    snd (fold_left (Regular.layerStep (W * H)) before
           (Regular.headerDefines fileBaseName p_map (W * H), includeLine fileBaseName)) in
  0 < W -> W mod 32 = 0 -> 0 < H -> H mod 32 = 0 ->
  layers p_map = (before ++ currentLayer :: after)%list ->
  isTileLayer currentLayer = true ->
  width currentLayer = W -> height currentLayer = H ->
  exists body rest,
    In (FileCommit (filePath ++ fileBaseName ++ ".c")
          (reached ++ arrayDefinition (sanitize (name currentLayer)) (W * H)
             ++ "{" ++ LF ++ body ++ LF ++ "};" ++ LF ++ rest))
       (effects (Regular.write host p_map p_fileName))
    /\ snd (Regular.layerStep (W * H) (EmptyString, reached) currentLayer)
       = reached ++ arrayDefinition (sanitize (name currentLayer)) (W * H)
           ++ "{" ++ LF ++ body ++ LF ++ "};" ++ LF ++ LF
    /\ Z.of_nat (List.length (Reader.entries body)) = W * H
    /\ forall j k y x : nat,
         Z.of_nat j < H / 32 -> Z.of_nat k < W / 32 -> (y < 32)%nat -> (x < 32)%nat ->
         nth_error (Reader.entries body)
           ((j * Z.to_nat (W / 32) + k) * 1024 + y * 32 + x)
         = Some (Regular.entryText
                   (cellAt currentLayer (Z.of_nat x + 32 * Z.of_nat k)
                                        (Z.of_nat y + 32 * Z.of_nat j))).
Proof.
  intros W H fileBaseName filePath reached HW HWm HH HHm Hlayers Htile Hlw Hlh.
  destruct (countBelowQuotient_multiple W HW HWm) as [Hnx Hqx].
  destruct (countBelowQuotient_multiple H HH HHm) as [Hny Hqy].
  destruct (regular_tile_layer_source (W * H) EmptyString reached
              currentLayer (Z.to_nat (W / 32)) (Z.to_nat (H / 32)))
    as [body [Hstep [_ Hread]]];
    try assumption; try lia.
  { now rewrite Hlw. }
  { now rewrite Hlh. }
  exists body, (slice0 (LF ++ joinAll (map (RegularText.layerSource (W * H)) after)) (-1)).
  split; [|split; [|split]].
  - rewrite regular_write_commits.
    2,3: unfold remainder; rewrite Z.rem_mod_nonneg by lia; assumption.
    fold fileBaseName. fold filePath. cbn [effects]. right. right. left. f_equal.
    unfold Regular.fileData. fold W. fold H. rewrite Hlayers, fold_left_app.
    rewrite (surjective_pairing
               (fold_left (Regular.layerStep (W * H)) before
                  (Regular.headerDefines fileBaseName p_map (W * H),
                   includeLine fileBaseName))).
    fold reached. cbn [fold_left].
    rewrite regular_layerStep_appends, regular_layers_append. cbn [snd].
    pose proof (f_equal snd Hstep) as Hsrc. cbn [snd] in Hsrc.
    rewrite regular_layerStep_appends in Hsrc. cbn [snd] in Hsrc.
    apply str_app_inv_head in Hsrc. rewrite Hsrc.
    rewrite !str_app_assoc.
    set (tail := LF ++ joinAll (map (RegularText.layerSource (W * H)) after)).
    rewrite <- !str_app_assoc.
    apply slice0_app_keep; [lia|].
    unfold tail. rewrite str_length_app. simpl. lia.
  - now rewrite Hstep.
  - rewrite Hread, length_layerTokens.
    pose proof (Z.div_mod W 32 ltac:(lia)) as HdW. rewrite HWm in HdW.
    pose proof (Z.div_mod H 32 ltac:(lia)) as HdH. rewrite HHm in HdH.
    rewrite !Nat2Z.inj_mul, !Z2Nat.id by lia.
    change (Z.of_nat 32) with 32. nia.
  - intros j k y x Hj Hk Hy Hx. rewrite Hread.
    change 1024%nat with (32 * 32)%nat.
    rewrite nth_layerTokens by lia. reflexivity.
Qed.

Lemma regular_entries_screenblock_major_witness :
  (0 < map_width wideMap /\ map_width wideMap mod 32 = 0
   /\ 0 < map_height wideMap /\ map_height wideMap mod 32 = 0
   /\ layers wideMap = ([] ++ wideLayer :: [])%list /\ isTileLayer wideLayer = true
   /\ width wideLayer = map_width wideMap /\ height wideLayer = map_height wideMap)
  /\ exists body rest,
       In (FileCommit ("/maps/" ++ "level_one" ++ ".c")
             (includeLine "level_one" ++ arrayDefinition "Ground" 2048
                ++ "{" ++ LF ++ body ++ LF ++ "};" ++ LF ++ rest))
          (effects (Regular.write sampleHost wideMap sampleFileName))
       /\ Z.of_nat (List.length (Reader.entries body)) = 2048
       /\ nth_error (Reader.entries body) ((0 * 2 + 1) * 1024 + 3 * 32 + 5)
          = Some "0x00E5".
Proof.
  split.
  - repeat split; reflexivity.
  - destruct (regular_entries_screenblock_major sampleHost wideMap sampleFileName
                [] [] wideLayer)
      as [body [rest [Hfile [_ [Hlen Hnth]]]]]; try reflexivity.
    exists body, rest. split; [exact Hfile|]. split; [exact Hlen|].
    exact (Hnth 0%nat 1%nat 3%nat 5%nat eq_refl eq_refl
             ltac:(repeat constructor) ltac:(repeat constructor)).
Defined.

(** C1 as stated fails for a layer that is not of the map's size.  The
    32x32 map whose tile layer is 64x32: the source file defines the array
    with the map's length 1024, and its body holds 2048 entries. *)
Lemma regular_mismatched_layer_entries :
  map_width mismatchedMap * map_height mismatchedMap = 1024
  /\ layers mismatchedMap = [wideLayer] /\ isTileLayer wideLayer = true
  /\ exists body,
       In (FileCommit "/maps/level_one.c"
             (includeLine "level_one" ++ arrayDefinition "Ground" 1024
                ++ "{" ++ LF ++ body ++ LF ++ "};" ++ LF))
          (effects (Regular.write sampleHost mismatchedMap sampleFileName))
       /\ List.length (Reader.entries body) = 2048%nat.
Proof.
  split; [reflexivity|]. split; [reflexivity|]. split; [reflexivity|].
  destruct (regular_tile_layer_source 1024
              (Regular.headerDefines "level_one" mismatchedMap 1024)
              (includeLine "level_one") wideLayer 2 1)
    as [body [Hstep [_ Hread]]]; try reflexivity; try lia.
  exists body. split.
  - rewrite regular_write_commits by reflexivity.
    cbn [effects]. right. right. left. f_equal.
    unfold Regular.fileData.
    change (layers mismatchedMap) with [wideLayer].
    change (map_width mismatchedMap * map_height mismatchedMap) with 1024.
    change (sanitize (completeBaseName sampleHost sampleFileName)) with "level_one".
    cbn [fold_left]. rewrite Hstep. cbn [snd].
    change (sanitize (name wideLayer)) with "Ground".
    set (kept := includeLine "level_one" ++ arrayDefinition "Ground" 1024
                   ++ "{" ++ LF ++ body ++ LF ++ "};" ++ LF).
    replace (includeLine "level_one" ++ arrayDefinition "Ground" 1024
               ++ "{" ++ LF ++ body ++ LF ++ "};" ++ LF ++ LF)
      with (kept ++ LF) by (unfold kept; now rewrite !str_app_assoc).
    apply slice0_drop_suffix; [lia | reflexivity].
  - rewrite Hread. now rewrite length_layerTokens.
Qed.

(* ================================================================== *)
(** * C2: the flip bits of a screen entry *)
(* ================================================================== *)

Lemma toInt32_small (n : Z) : - 2 ^ 31 <= n < 2 ^ 31 -> toInt32 n = n.
Proof. intros H. unfold toInt32. rewrite Z.mod_small; lia. Qed.

Lemma lor_below_pow2 (a b k : Z) :
  0 <= a < 2 ^ k -> 0 <= b < 2 ^ k -> 0 <= Z.lor a b < 2 ^ k.
Proof.
  intros Ha Hb.
  assert (Hnn : 0 <= Z.lor a b) by (apply Z.lor_nonneg; lia).
  split; [exact Hnn|].
  destruct (Z.eq_dec (Z.lor a b) 0) as [Hz|Hz]; [lia|].
  assert (Hk : 0 < k).
  { destruct (Z.lt_ge_cases 0 k) as [|Hle]; [assumption|].
    exfalso. apply Hz.
    assert (2 ^ k <= 1).
    { destruct (Z.eq_dec k 0) as [->|]; [simpl; lia|].
      rewrite Z.pow_neg_r; lia. }
    assert (a = 0) by lia. assert (b = 0) by lia. subst. reflexivity. }
  apply Z.log2_lt_pow2; [lia|].
  rewrite Z.log2_lor by lia.
  assert (Hlog : forall c, 0 <= c < 2 ^ k -> Z.log2 c < k).
  { intros c Hc. destruct (Z.eq_dec c 0) as [->|]; [simpl; lia|].
    apply Z.log2_lt_pow2; lia. }
  apply Z.max_lub_lt; apply Hlog; assumption.
Qed.

Lemma testbit_flip_masks (h v : bool) (i : Z) :
  0 <= i ->
  Z.testbit (Z.lor (if h then 2 ^ 10 else 0) (if v then 2 ^ 11 else 0)) i
  = (h && (i =? 10) || v && (i =? 11))%bool.
Proof.
  intros Hi. rewrite Z.lor_spec.
  assert (E10 : Z.testbit (2 ^ 10) i = (i =? 10)).
  { rewrite Z.pow2_bits_eqb by lia. apply Z.eqb_sym. }
  assert (E11 : Z.testbit (2 ^ 11) i = (i =? 11)).
  { rewrite Z.pow2_bits_eqb by lia. apply Z.eqb_sym. }
  destruct h, v; rewrite ?E10, ?E11, ?Z.bits_0; simpl;
    rewrite ?orb_false_r; reflexivity.
Qed.

(** The number written for a cell with a tile id in the host's range: the
    id or-ed with the two masks. *)
Lemma regular_screenEntry_lor (n : Z) (h v : bool) :
  0 <= n < 2 ^ 31 ->
  Regular.screenEntry (mkCell (IdNumber n) h v)
  = Z.lor n (Z.lor (if h then 2 ^ 10 else 0) (if v then 2 ^ 11 else 0)).
Proof.
  intros Hn. unfold Regular.screenEntry, bitOr. cbn [tileId idNumber flippedHorizontally flippedVertically].
  change (Z.shiftl 1 10) with (2 ^ 10). change (Z.shiftl 1 11) with (2 ^ 11).
  assert (H10 : toInt32 (2 ^ 10) = 2 ^ 10) by reflexivity.
  assert (H11 : toInt32 (2 ^ 11) = 2 ^ 11) by reflexivity.
  assert (Hor : 0 <= Z.lor n (2 ^ 10) < 2 ^ 31) by (apply lor_below_pow2; lia).
  rewrite H10, H11, (toInt32_small n) by lia.
  destruct h, v; rewrite ?(toInt32_small (Z.lor n (2 ^ 10))) by lia;
    rewrite ?(toInt32_small n) by lia;
    rewrite ?Z.lor_0_r, ?Z.lor_0_l, ?Z.lor_assoc; reflexivity.
Qed.

(** C2, as the code has it.  In the format "gba", a cell whose tile id is
    not blank (a non-negative id of the host's 32-bit range) is written as
    [decimalToHex] of the tile id or-ed with bit 10 when the cell is
    flipped horizontally and with bit 11 when it is flipped vertically;
    bits 10 and 11 of the id itself stay as they are.  For an id that fits
    the low ten bits (0..1023), bit 10 of the value is set iff
    flippedHorizontally, bit 11 iff flippedVertically, the low ten bits
    are the id and the value has 16 bits.  Tile 5 flipped horizontally is
    written 0x0405 and flipped both ways 0x0C05. *)
Theorem regular_flip_bit_packing :
  (forall (n : Z) (h v : bool),
      0 <= n < 2 ^ 31 ->
      let c := mkCell (IdNumber n) h v in
      let value := Z.lor n (Z.lor (if h then 2 ^ 10 else 0) (if v then 2 ^ 11 else 0)) in
      looseEqMinusOne (tileId c) = false
      /\ (forall (l : Layer) (j k y x : nat) (src : string),
            cellAt l (Z.of_nat x + 32 * Z.of_nat k) (Z.of_nat y + 32 * Z.of_nat j) = c ->
            Regular.cellStep l j k y src x = src ++ decimalToHex value 4 ++ ", ")
      /\ Regular.entryText c = decimalToHex value 4
      /\ Regular.screenEntry c = value
      /\ (forall i, 0 <= i ->
            Z.testbit value i
            = (Z.testbit n i || (h && (i =? 10)) || (v && (i =? 11)))%bool)
      /\ (n < 2 ^ 10 ->
            Z.testbit value 10 = h
            /\ Z.testbit value 11 = v
            /\ value mod 2 ^ 10 = n
            /\ 0 <= value < 2 ^ 16))
  /\ Regular.entryText (mkCell (IdNumber 5) true false) = "0x0405"
  /\ Regular.entryText (mkCell (IdNumber 5) true true) = "0x0C05".
Proof.
  split; [|split; reflexivity].
  intros n h v Hn c value.
  assert (Hblank : looseEqMinusOne (tileId c) = false).
  { simpl. apply Z.eqb_neq. lia. }
  assert (Hval : Regular.screenEntry c = value)
    by (apply regular_screenEntry_lor; assumption).
  assert (Htext : Regular.entryText c = decimalToHex value 4).
  { unfold Regular.entryText. now rewrite Hblank, Hval. }
  assert (Hbits : forall i, 0 <= i ->
            Z.testbit value i
            = (Z.testbit n i || (h && (i =? 10)) || (v && (i =? 11)))%bool).
  { intros i Hi. unfold value.
    rewrite Z.lor_spec, testbit_flip_masks by assumption.
    now rewrite orb_assoc. }
  split; [exact Hblank|]. split.
  { intros l j k y x src Hc. now rewrite regular_cellStep_entry, Hc, Htext. }
  split; [exact Htext|]. split; [exact Hval|]. split; [exact Hbits|].
  intros Hsmall.
  assert (Hhigh : forall i, 10 <= i -> Z.testbit n i = false).
  { intros i Hi. rewrite <- (Z.mod_small n (2 ^ 10)) by lia.
    apply Z.mod_pow2_bits_high. lia. }
  split; [|split; [|split]].
  - rewrite Hbits, Hhigh by lia. simpl. now rewrite andb_false_r, orb_false_r, andb_true_r.
  - rewrite Hbits, Hhigh by lia. simpl. now rewrite andb_false_r, andb_true_r.
  - apply Z.bits_inj'. intros i Hi.
    destruct (Z.lt_ge_cases i 10) as [Hlo|Hhi].
    + rewrite Z.mod_pow2_bits_low, Hbits by lia.
      replace (i =? 10) with false by (symmetry; apply Z.eqb_neq; lia).
      replace (i =? 11) with false by (symmetry; apply Z.eqb_neq; lia).
      now rewrite !andb_false_r, !orb_false_r.
    + rewrite Z.mod_pow2_bits_high, Hhigh by lia. reflexivity.
  - unfold value. apply lor_below_pow2; [lia|].
    apply lor_below_pow2; destruct h, v; simpl; lia.
Qed.

Lemma regular_flip_bit_packing_witness :
  0 <= 5 < 2 ^ 31
  /\ Regular.entryText (mkCell (IdNumber 5) true false)
     = decimalToHex (Regular.screenEntry (mkCell (IdNumber 5) true false)) 4
  /\ Regular.screenEntry (mkCell (IdNumber 5) true false) = 1029.
Proof.
  assert (H : 0 <= 5 < 2 ^ 31) by (split; [discriminate | reflexivity]).
  split; [exact H|].
  destruct (proj1 regular_flip_bit_packing 5 true false H) as [_ [_ [Htext [Hval _]]]].
  split; [rewrite Htext; reflexivity | exact Hval].
Defined.

(** C2 as stated fails for an id beyond the low ten bits.  Tile 1024, not
    flipped, is written 0x0400: bit 10 of the entry is set although the
    cell is not flipped horizontally. *)
Lemma regular_big_tile_sets_bit_10 :
  looseEqMinusOne (tileId bigTileCell) = false
  /\ flippedHorizontally bigTileCell = false
  /\ Regular.entryText bigTileCell = "0x0400"
  /\ Z.testbit (Regular.screenEntry bigTileCell) 10 = true.
Proof. repeat split. Qed.

(* ================================================================== *)
(** * C3: blank cells *)
(* ================================================================== *)

(** C3.  In both formats a cell whose tile id is the blank sentinel, the
    integer -1 or the string "-1", is written as the literal 0x0000,
    whatever its flip flags are; the loop body appends that literal and
    the separator. *)
Theorem blank_cell_is_0x0000 (h v : bool) :
  Regular.entryText (mkCell (IdNumber (-1)) h v) = "0x0000"
  /\ Regular.entryText (mkCell IdStringMinusOne h v) = "0x0000"
  /\ Affine.entryText (mkCell (IdNumber (-1)) h v) = "0x0000"
  /\ Affine.entryText (mkCell IdStringMinusOne h v) = "0x0000"
  /\ (forall (l : Layer) (j k y x : nat) (src : string),
        looseEqMinusOne
          (tileId (cellAt l (Z.of_nat x + 32 * Z.of_nat k) (Z.of_nat y + 32 * Z.of_nat j)))
        = true ->
        Regular.cellStep l j k y src x = src ++ "0x0000, ")
  /\ (forall (l : Layer) (y x : nat) (src : string),
        looseEqMinusOne (tileId (cellAt l (Z.of_nat x) (Z.of_nat y))) = true ->
        Affine.cellStep l y src x = src ++ "0x0000, ").
Proof.
  repeat split.
  - intros l j k y x src Hb. unfold Regular.cellStep.
    change Regular.SCREENBLOCKWIDTH with 32. change Regular.SCREENBLOCKHEIGHT with 32.
    now rewrite Hb.
  - intros l y x src Hb. unfold Affine.cellStep.
    now rewrite Hb.
Qed.

(* ================================================================== *)
(** * C4 and C5: the size guards *)
(* ================================================================== *)

Lemma affine_validSize_iff (m : TileMap) :
  Affine.validSize m = true
  <-> (map_width m = 16 /\ map_height m = 16)
      \/ (map_width m = 32 /\ map_height m = 32)
      \/ (map_width m = 64 /\ map_height m = 64)
      \/ (map_width m = 128 /\ map_height m = 128).
Proof.
  unfold Affine.validSize.
  rewrite !orb_true_iff, !andb_true_iff, !Z.eqb_eq. tauto.
Qed.

(** C4.  In the format "gba-affine", [write] goes on to the export (it
    returns nothing and commits the header and the source file) iff the
    map is 16x16, 32x32, 64x64 or 128x128; for every other size it returns
    the error message, which contains "Map must be 16x16, 32x32, 64x64 or
    128x128 in size.", commits no file and logs nothing: it has only
    started the console timer. *)
Theorem affine_size_guard (host : FileInfo) (p_map : TileMap) (p_fileName : string) :
  let valid :=
    (map_width p_map = 16 /\ map_height p_map = 16)
    \/ (map_width p_map = 32 /\ map_height p_map = 32)
    \/ (map_width p_map = 64 /\ map_height p_map = 64)
    \/ (map_width p_map = 128 /\ map_height p_map = 128) in
  let outcome := Affine.write host p_map p_fileName in
  (returned outcome = None <-> valid)
  /\ (valid -> List.length (filesWritten outcome) = 2%nat)
  /\ (~ valid ->
        returned outcome = Some Affine.sizeError
        /\ effects outcome = [ConsoleTime Affine.timerLabel]
        /\ filesWritten outcome = [])
  /\ Affine.sizeError
     = "Invalid map size! " ++ "Map must be 16x16, 32x32, 64x64 or 128x128 in size.".
Proof.
  intros valid outcome.
  pose proof (affine_validSize_iff p_map) as Hiff. fold valid in Hiff.
  unfold outcome, Affine.write.
  destruct (Affine.validSize p_map) eqn:Hv; simpl negb; cbv iota.
  - assert (Hvalid : valid) by now apply Hiff.
    destruct (Affine.fileData _ p_map) as [hdr src]. simpl.
    split; [split; auto|].
    split; [intros _; reflexivity|].
    split; [intros Hn; now elim Hn | reflexivity].
  - assert (Hinvalid : ~ valid) by (intros H; apply Hiff in H; discriminate).
    simpl.
    split; [split; [discriminate | intros H; now elim Hinvalid]|].
    split; [intros H; now elim Hinvalid|].
    split; [intros _; repeat split | reflexivity].
Qed.

(** A 30x30 map is refused by the affine format and nothing is written. *)
Lemma affine_30x30_refused :
  Affine.write sampleHost (mkTileMap 30 30 [sequentialLayer "Ground" 30 30 30]) sampleFileName
  = mkOutcome (Some Affine.sizeError) [ConsoleTime Affine.timerLabel].
Proof. reflexivity. Qed.

(** C5, as the code has it.  In the format "gba", [write] goes on to the
    export (it returns nothing and commits the header and the source file)
    iff width % 32 and height % 32 are both zero; the guard does not look
    at the sign, so a width or height of zero passes.  For every map that
    fails the test it returns the error message, which contains "Map width
    and height must be a multiple of 32.", and has no effect at all. *)
Theorem regular_size_guard (host : FileInfo) (p_map : TileMap) (p_fileName : string) :
  let valid :=
    remainder (map_width p_map) 32 = 0 /\ remainder (map_height p_map) 32 = 0 in
  let outcome := Regular.write host p_map p_fileName in
  (returned outcome = None <-> valid)
  /\ (valid -> List.length (filesWritten outcome) = 2%nat)
  /\ (~ valid ->
        returned outcome = Some Regular.sizeError /\ effects outcome = [])
  /\ (0 <= map_width p_map ->
        (remainder (map_width p_map) 32 = 0 <-> map_width p_map mod 32 = 0))
  /\ (0 <= map_height p_map ->
        (remainder (map_height p_map) 32 = 0 <-> map_height p_map mod 32 = 0))
  /\ Regular.sizeError
     = "Export failed: Invalid map size! "
         ++ "Map width and height must be a multiple of 32.".
Proof.
  intros valid outcome.
  assert (Hrem : forall n, 0 <= n -> (remainder n 32 = 0 <-> n mod 32 = 0)).
  { intros n Hn. unfold remainder. rewrite Z.rem_mod_nonneg by lia. tauto. }
  unfold outcome, Regular.write.
  destruct (Z.eqb_spec (remainder (map_width p_map) 32) 0) as [Hw|Hw];
    destruct (Z.eqb_spec (remainder (map_height p_map) 32) 0) as [Hh|Hh];
    simpl negb; simpl orb; cbv iota.
  1: { destruct (Regular.fileData _ p_map) as [hdr src]. simpl.
       assert (Hvalid : valid) by (split; assumption).
       split; [split; auto|].
       split; [intros _; reflexivity|].
       split; [intros Hn; now elim Hn|].
       split; [apply Hrem|]. split; [apply Hrem | reflexivity]. }
  all: assert (Hinvalid : ~ valid) by (intros [H1 H2]; contradiction);
       simpl;
       (split; [split; [discriminate | intros H; now elim Hinvalid]|]);
       (split; [intros H; now elim Hinvalid|]);
       (split; [intros _; split; reflexivity|]);
       (split; [apply Hrem|]); (split; [apply Hrem | reflexivity]).
Qed.

(** A 33x32 map is refused by the regular format and nothing happens. *)
Lemma regular_33x32_refused :
  Regular.write sampleHost (mkTileMap 33 32 [sequentialLayer "Ground" 33 32 33]) sampleFileName
  = mkOutcome (Some Regular.sizeError) [].
Proof. reflexivity. Qed.

(** C5 as stated fails at zero.  The 0x0 map is not positive in either
    dimension, and the regular format exports it: nothing is returned and
    two files are committed. *)
Lemma regular_zero_size_exported :
  (0 <? map_width emptyMap) = false
  /\ (0 <? map_height emptyMap) = false
  /\ returned (Regular.write sampleHost emptyMap sampleFileName) = None
  /\ List.length (filesWritten (Regular.write sampleHost emptyMap sampleFileName)) = 2%nat.
Proof. repeat split. Qed.

(* ================================================================== *)
(** * C6 and C7: layers that are not tile layers *)
(* ================================================================== *)

(** In the affine format the turn of a layer that is not a tile layer
    declares the array in the header and leaves the source text at the
    opening brace: the closing is inside the tile-layer branch. *)
Lemma affine_non_tile_layer_step (p_map : TileMap) (len : Z) (hdr src : string) (l : Layer) :
  isTileLayer l = false ->
  Affine.layerStep p_map len (hdr, src) l
  = (hdr ++ externDeclaration (sanitize (name l)) len,
     src ++ arrayDefinition (sanitize (name l)) len ++ "{" ++ LF).
Proof.
  intros Hl. unfold Affine.layerStep. rewrite Hl. now rewrite str_app_assoc.
Qed.

(** C6, at a 16x16 map whose only layer is the object layer "Objects".
    The header declares the array; the source file ends right after the
    opening brace of its definition, which nothing closes. *)
Theorem affine_object_layer_left_open :
  Affine.write sampleHost objectsMap sampleFileName
  = mkOutcome None
      [ ConsoleTime Affine.timerLabel;
        FileCommit "/maps/level_one.h"
          (headerClose (Affine.headerDefines "level_one" objectsMap 256
                          ++ "extern const unsigned short Objects[256];" ++ LF));
        ConsoleLog "Tilemap exported to /maps/level_one.h";
        FileCommit "/maps/level_one.c"
          (includeLine "level_one"
             ++ "const unsigned short Objects[256] __attribute__((aligned(4))) ="
             ++ LF ++ "{");
        ConsoleLog "Tilemap exported to /maps/level_one.c";
        ConsoleTimeEnd Affine.timerLabel ].
Proof. reflexivity. Qed.

(** C7.  In the format "gba", the turn of a layer that is not a tile layer
    appends nothing between the opening brace and the close step, and the
    close step still removes the last three characters of the accumulated
    source text, here the line feed, the brace and the line feed that end
    the definition's opening, before it appends the closing; whatever the
    accumulated text ends with, the close step removes exactly three
    characters from it. *)
Theorem regular_non_tile_layer_close
    (tilemapLength : Z) (headerFileData sourceFileData : string) (currentLayer : Layer) :
  isTileLayer currentLayer = false ->
  let opened :=
    sourceFileData ++ arrayDefinition (sanitize (name currentLayer)) tilemapLength
      ++ "{" ++ LF in
  Regular.layerStep tilemapLength (headerFileData, sourceFileData) currentLayer
  = (headerFileData ++ externDeclaration (sanitize (name currentLayer)) tilemapLength,
     closeArray opened)
  /\ closeArray opened = slice0 opened (-3) ++ LF ++ "};" ++ LF ++ LF
  /\ opened = slice0 opened (-3) ++ (LF ++ "{" ++ LF)
  /\ slice0 opened (-3)
     = sourceFileData ++ "const unsigned short " ++ sanitize (name currentLayer)
         ++ "[" ++ numberToString tilemapLength ++ "] __attribute__((aligned(4))) ="
  /\ (forall accumulated : string,
        (3 <= String.length accumulated)%nat ->
        exists removed,
          accumulated = slice0 accumulated (-3) ++ removed
          /\ String.length removed = 3%nat
          /\ closeArray accumulated = slice0 accumulated (-3) ++ LF ++ "};" ++ LF ++ LF).
Proof.
  intros Hl opened.
  assert (Hsplit : opened
            = (sourceFileData ++ "const unsigned short " ++ sanitize (name currentLayer)
                 ++ "[" ++ numberToString tilemapLength
                 ++ "] __attribute__((aligned(4))) =")
              ++ (LF ++ "{" ++ LF)).
  { unfold opened, arrayDefinition. now rewrite !str_app_assoc. }
  assert (Hslice : slice0 opened (-3)
            = sourceFileData ++ "const unsigned short " ++ sanitize (name currentLayer)
                ++ "[" ++ numberToString tilemapLength
                ++ "] __attribute__((aligned(4))) =").
  { rewrite Hsplit. apply slice0_drop_suffix; [lia | reflexivity]. }
  split; [|split; [reflexivity|split; [|split; [exact Hslice|]]]].
  - unfold Regular.layerStep. rewrite Hl. unfold opened. now rewrite !str_app_assoc.
  - now rewrite Hslice.
  - intros accumulated Hlen.
    destruct (slice0_splits accumulated (-3)) as [removed [Hr Hn]]; [lia | lia |].
    exists removed. split; [exact Hr|]. split; [lia | reflexivity].
Qed.

Lemma regular_non_tile_layer_close_witness :
  isTileLayer (objectLayer "Objects" 32 32) = false
  /\ Regular.layerStep 1024 (EmptyString, "#include") (objectLayer "Objects" 32 32)
     = ("extern const unsigned short Objects[1024];" ++ LF,
        "#includeconst unsigned short Objects[1024] __attribute__((aligned(4))) ="
          ++ LF ++ "};" ++ LF ++ LF).
Proof.
  split; [reflexivity|].
  destruct (regular_non_tile_layer_close 1024 EmptyString "#include"
              (objectLayer "Objects" 32 32) eq_refl) as [Hstep _].
  rewrite Hstep. reflexivity.
Defined.

(* ================================================================== *)
(** * C9: the identifier sanitizer *)
(* ================================================================== *)

Lemma inClass_characters (c : ascii) :
  inClass c = existsb (Ascii.eqb c) (list_ascii_of_string classCharacters).
Proof. destruct c as [[] [] [] [] [] [] [] []]; reflexivity. Qed.

Lemma mapString_length (f : ascii -> ascii) (s : string) :
  String.length (mapString f s) = String.length s.
Proof. induction s as [|c s IH]; simpl; [reflexivity | now rewrite IH]. Qed.

Lemma mapString_get (f : ascii -> ascii) (s : string) (i : nat) :
  String.get i (mapString f s) = option_map f (String.get i s).
Proof.
  revert i. induction s as [|c s IH]; intros i; simpl; [reflexivity|].
  destruct i as [|i]; [reflexivity | apply IH].
Qed.

(** C9.  The sanitizer is a function on all strings.  It keeps the length;
    at every position it keeps a character of the class [A-Za-z0-9_-] and
    puts an underscore for any other; it maps "My Layer #1" to
    "My_Layer__1"; and sanitizing a sanitized string changes nothing. *)
Theorem sanitize_replaces_outside_class (s : string) :
  String.length (sanitize s) = String.length s
  /\ (forall i : nat,
        String.get i (sanitize s)
        = option_map (fun c => if inClass c then c else "_"%char) (String.get i s))
  /\ (forall c : ascii,
        inClass c = existsb (Ascii.eqb c) (list_ascii_of_string classCharacters))
  /\ sanitize "My Layer #1" = "My_Layer__1"
  /\ sanitize (sanitize s) = sanitize s.
Proof.
  split; [apply mapString_length|].
  split; [intros i; apply mapString_get|].
  split; [exact inClass_characters|].
  split; [reflexivity|].
  unfold sanitize, replaceOutsideClass.
  induction s as [|c s IH]; simpl; [reflexivity|].
  rewrite IH. f_equal.
  destruct (inClass c) eqn:Hc; [now rewrite Hc | reflexivity].
Qed.

(* ================================================================== *)
(** * C10: the export as a function of the map's content *)
(* ================================================================== *)

Lemma fold_left_Forall2 {A St : Type} (R : A -> A -> Prop) (f : St -> A -> St) :
  (forall st a b, R a b -> f st a = f st b) ->
  forall xs ys, Forall2 R xs ys -> forall st, fold_left f xs st = fold_left f ys st.
Proof.
  intros Hf xs ys HR. induction HR as [|a b xs ys Hab _ IH]; intros st; simpl.
  - reflexivity.
  - now rewrite (Hf st a b Hab), IH.
Qed.

Section SameLayer.

Variables l1 l2 : Layer.
Hypothesis Hsame : sameLayer l1 l2.

Lemma regular_tileLoops_same (src : string) :
  Regular.tileLoops l1 src = Regular.tileLoops l2 src.
Proof.
  destruct Hsame as [_ [Hw [Hh [_ Hcells]]]].
  unfold Regular.tileLoops. rewrite Hw, Hh. f_equal.
  unfold forLoop. apply fold_left_pointwise. intros st j.
  apply fold_left_pointwise. intros [s id] k.
  unfold Regular.blockStep. f_equal. f_equal.
  unfold forLoop. apply fold_left_pointwise. intros s' y.
  unfold Regular.rowStep. f_equal.
  unfold forLoop. apply fold_left_pointwise. intros s'' x.
  unfold Regular.cellStep. now rewrite Hcells.
Qed.

Lemma regular_layerStep_same (len : Z) (st : string * string) :
  Regular.layerStep len st l1 = Regular.layerStep len st l2.
Proof.
  destruct Hsame as [Hn [_ [_ [Ht _]]]].
  destruct st as [hdr src]. unfold Regular.layerStep.
  now rewrite Hn, Ht, regular_tileLoops_same.
Qed.

Lemma affine_layerStep_same (p_map : TileMap) (len : Z) (st : string * string) :
  Affine.layerStep p_map len st l1 = Affine.layerStep p_map len st l2.
Proof.
  destruct Hsame as [Hn [_ [_ [Ht Hcells]]]].
  destruct st as [hdr src]. unfold Affine.layerStep. rewrite Hn, Ht.
  destruct (isTileLayer l2); [|reflexivity].
  f_equal. f_equal.
  unfold forLoop. apply fold_left_pointwise. intros s y.
  unfold Affine.rowStep. f_equal.
  unfold forLoop. apply fold_left_pointwise. intros s' x.
  unfold Affine.cellStep. now rewrite Hcells.
Qed.

End SameLayer.

Lemma affine_layerStep_dims (m1 m2 : TileMap) (len : Z) (st : string * string) (l : Layer) :
  map_width m1 = map_width m2 -> map_height m1 = map_height m2 ->
  Affine.layerStep m1 len st l = Affine.layerStep m2 len st l.
Proof.
  intros Hw Hh. destruct st as [hdr src]. unfold Affine.layerStep, Affine.rowStep.
  now rewrite Hw, Hh.
Qed.

Lemma regular_fileData_same (base : string) (m1 m2 : TileMap) :
  sameMap m1 m2 -> Regular.fileData base m1 = Regular.fileData base m2.
Proof.
  intros [Hw [Hh Hl]]. unfold Regular.fileData, Regular.headerDefines.
  rewrite Hw, Hh.
  rewrite (fold_left_Forall2 sameLayer _
             (fun st a b Hab => regular_layerStep_same a b Hab _ st) _ _ Hl).
  reflexivity.
Qed.

Lemma affine_fileData_same (base : string) (m1 m2 : TileMap) :
  sameMap m1 m2 -> Affine.fileData base m1 = Affine.fileData base m2.
Proof.
  intros [Hw [Hh Hl]]. unfold Affine.fileData, Affine.headerDefines.
  rewrite Hw, Hh.
  rewrite (fold_left_Forall2 sameLayer _
             (fun st a b Hab => affine_layerStep_same a b Hab m1 _ st) _ _ Hl).
  rewrite (fold_left_pointwise _ (Affine.layerStep m2 (map_width m2 * map_height m2))
             (fun st l => affine_layerStep_dims m1 m2 _ st l Hw Hh)).
  reflexivity.
Qed.

(** C10.  In both formats the outcome of [write], and with it the header
    and the source text it commits, is determined by the host's file-name
    functions, the target file name and the content of the map: two maps
    with the same dimensions and, layer by layer, the same names, sizes,
    kinds and cells give the very same outcome. *)
Theorem export_determined_by_map_content
    (host : FileInfo) (m1 m2 : TileMap) (p_fileName : string) :
  sameMap m1 m2 ->
  Regular.write host m1 p_fileName = Regular.write host m2 p_fileName
  /\ Affine.write host m1 p_fileName = Affine.write host m2 p_fileName.
Proof.
  intros Hsame. pose proof Hsame as [Hw [Hh _]]. split.
  - unfold Regular.write. rewrite Hw, Hh.
    now rewrite (regular_fileData_same _ m1 m2 Hsame).
  - unfold Affine.write, Affine.validSize. rewrite Hw, Hh.
    now rewrite (affine_fileData_same _ m1 m2 Hsame).
Qed.

Lemma export_determined_by_map_content_witness :
  sameMap roundTripMap mirroredMap
  /\ Regular.write sampleHost roundTripMap sampleFileName
     = Regular.write sampleHost mirroredMap sampleFileName
  /\ Affine.write sampleHost roundTripMap sampleFileName
     = Affine.write sampleHost mirroredMap sampleFileName.
Proof.
  assert (H : sameMap roundTripMap mirroredMap).
  { split; [reflexivity|]. split; [reflexivity|].
    constructor; [|constructor].
    repeat split. intros x y. simpl. unfold plainCell. f_equal. f_equal. lia. }
  split; [exact H|].
  exact (export_determined_by_map_content sampleHost roundTripMap mirroredMap
           sampleFileName H).
Defined.

(* ================================================================== *)
(** * C8: the round trip of a 32x32 map *)
(* ================================================================== *)

(** C8.  The 32x32 map with the single tile layer "Ground" whose tile ids
    run 0..1023 row by row, without flips, exported in the format "gba" to
    any file: the header holds the one declaration of an array of length
    1024, and the body of the array in the source file, read back by
    splitting on commas and decoding each value at its "0x", gives 0, 1,
    ..., 1023 in that order. *)
Theorem regular_round_trip_32x32 (host : FileInfo) (p_fileName : string) :
  let fileBaseName := sanitize (completeBaseName host p_fileName) in
  let filePath := toNativeSeparators host (path host p_fileName ++ "/") in
  exists body,
    Regular.write host roundTripMap p_fileName
    = mkOutcome None
        [ FileCommit (filePath ++ fileBaseName ++ ".h")
            (headerClose (Regular.headerDefines fileBaseName roundTripMap 1024
                            ++ "extern const unsigned short Ground[1024];" ++ LF));
          TiledLog ("Tilemap exported to " ++ filePath ++ fileBaseName ++ ".h");
          FileCommit (filePath ++ fileBaseName ++ ".c")
            (includeLine fileBaseName
               ++ "const unsigned short Ground[1024] __attribute__((aligned(4))) ="
               ++ LF ++ "{" ++ LF ++ body ++ LF ++ "};" ++ LF);
          TiledLog ("Tilemap exported to " ++ filePath ++ fileBaseName ++ ".c") ]
    /\ Reader.values body = map (fun n => Some (Z.of_nat n)) (seq 0 1024).
Proof.
  intros fileBaseName filePath.
  set (l := sequentialLayer "Ground" 32 32 32).
  destruct (regular_tile_layer_source 1024
              (Regular.headerDefines fileBaseName roundTripMap 1024)
              (includeLine fileBaseName) l 1 1)
    as [body [Hstep [_ Hread]]]; try reflexivity; try lia.
  exists body. split.
  - unfold Regular.write.
    change (remainder (map_width roundTripMap) 32 =? 0) with true.
    change (remainder (map_height roundTripMap) 32 =? 0) with true.
    cbv beta iota zeta delta [negb orb].
    fold fileBaseName. fold filePath.
    unfold Regular.fileData.
    change (layers roundTripMap) with [l].
    change (map_width roundTripMap * map_height roundTripMap) with 1024.
    cbn [fold_left]. rewrite Hstep.
    replace (includeLine fileBaseName ++ arrayDefinition (sanitize (name l)) 1024
               ++ "{" ++ LF ++ body ++ LF ++ "};" ++ LF ++ LF)
      with ((includeLine fileBaseName ++ arrayDefinition (sanitize (name l)) 1024
               ++ "{" ++ LF ++ body ++ LF ++ "};" ++ LF) ++ LF)
      by (now rewrite !str_app_assoc).
    rewrite (slice0_drop_suffix _ LF (-1)) by (reflexivity || lia).
    reflexivity.
  - unfold Reader.values. rewrite Hread. vm_compute. reflexivity.
Qed.

(* ================================================================== *)
(** * decimalToHex: reading the digits back, and the width *)
(* ================================================================== *)

Lemma hexDigits_from_positive (d : Hexadecimal.uint) (p : positive) :
  Reader.hexDigits (Zpos p) (toUpperCase (HexadecimalString.NilEmpty.string_of_uint d))
  = Some (Zpos (Pos.of_hex_uint_acc d p)).
Proof.
  revert p. induction d; intros p; try reflexivity;
    cbn [HexadecimalString.NilEmpty.string_of_uint toUpperCase mapString
         Reader.hexDigits Pos.of_hex_uint_acc];
    rewrite <- IHd; reflexivity.
Qed.

Lemma hexDigits_from_zero (d : Hexadecimal.uint) :
  Reader.hexDigits 0 (toUpperCase (HexadecimalString.NilEmpty.string_of_uint d))
  = Some (Z.of_N (Pos.of_hex_uint d)).
Proof.
  induction d; try reflexivity;
    cbn [HexadecimalString.NilEmpty.string_of_uint toUpperCase mapString
         Reader.hexDigits Pos.of_hex_uint];
    try (rewrite <- IHd; reflexivity);
    apply hexDigits_from_positive.
Qed.

Lemma hexDigits_skips_zeros (k : nat) (s : string) :
  Reader.hexDigits 0 (repeatChar "0"%char k ++ s) = Reader.hexDigits 0 s.
Proof. induction k as [|k IH]; [reflexivity | exact IH]. Qed.

Lemma toString16_nonneg (n : Z) :
  0 <= n ->
  exists d, toString16 n = HexadecimalString.NilEmpty.string_of_uint d
            /\ d <> Hexadecimal.Nil
            /\ Z.of_N (Pos.of_hex_uint d) = n
            /\ (n = 0 \/ Hexadecimal.nzhead d = d).
Proof.
  intros Hn. unfold toString16. destruct n as [|p|p]; [| |lia].
  - exists (Hexadecimal.D0 Hexadecimal.Nil). repeat split; [discriminate | now left].
  - exists (Pos.to_hex_uint p).
    pose proof (HexadecimalPos.Unsigned.to_uint_nonnil p) as Hnil.
    pose proof (HexadecimalPos.Unsigned.to_uint_nonzero p) as Hnz.
    pose proof (HexadecimalPos.Unsigned.of_to p) as Hof.
    split; [|split; [exact Hnil|split]].
    + cbn [Z.to_hex_int HexadecimalString.NilZero.string_of_int].
      unfold HexadecimalString.NilZero.string_of_uint.
      destruct (Pos.to_hex_uint p); congruence.
    + now rewrite Hof.
    + right.
      pose proof (HexadecimalPos.Unsigned.to_of (Pos.to_hex_uint p)) as Hto.
      rewrite Hof in Hto. cbn [N.to_hex_uint] in Hto.
      unfold Hexadecimal.unorm in Hto.
      destruct (Hexadecimal.nzhead (Pos.to_hex_uint p)); congruence.
Qed.

Lemma mapString_nonempty (f : ascii -> ascii) (s : string) :
  s <> EmptyString -> mapString f s <> EmptyString.
Proof. destruct s; [congruence | discriminate]. Qed.

Lemma hex_string_nonempty (d : Hexadecimal.uint) :
  d <> Hexadecimal.Nil -> HexadecimalString.NilEmpty.string_of_uint d <> EmptyString.
Proof. destruct d; [congruence | discriminate ..]. Qed.

Lemma hexValue_after_0x (digits : string) :
  digits <> EmptyString ->
  Reader.hexValue ("0x" ++ digits) = Reader.hexDigits 0 digits.
Proof. destruct digits; [congruence | reflexivity]. Qed.

Lemma padStart_nonempty (p : nat) (c : ascii) (s : string) :
  s <> EmptyString -> padStart p c s <> EmptyString.
Proof.
  intros Hs. unfold padStart. destruct (repeatChar c (p - String.length s)); [exact Hs | discriminate].
Qed.

Lemma hexValue_of_decimalToHex (n : Z) (p : nat) :
  0 <= n -> Reader.hexValue (decimalToHex n p) = Some n.
Proof.
  intros Hn. destruct (toString16_nonneg n Hn) as [d [Hs [Hnil [Hval _]]]].
  unfold decimalToHex. rewrite hexValue_after_0x.
  - unfold padStart. rewrite hexDigits_skips_zeros, Hs, hexDigits_from_zero.
    now rewrite Hval.
  - apply padStart_nonempty, mapString_nonempty. rewrite Hs.
    now apply hex_string_nonempty.
Qed.



Lemma repeatChar_length (c : ascii) (k : nat) : String.length (repeatChar c k) = k.
Proof. induction k as [|k IH]; simpl; [reflexivity | now rewrite IH]. Qed.

(** [padStart] only ever adds: the result has the longer of the two
    lengths. *)
Lemma padStart_length (p : nat) (c : ascii) (s : string) :
  String.length (padStart p c s) = Nat.max p (String.length s).
Proof. unfold padStart. rewrite str_length_app, repeatChar_length. lia. Qed.

Lemma hex_acc_bounds (d : Hexadecimal.uint) (acc : positive) :
  let len := Z.of_nat (String.length (HexadecimalString.NilEmpty.string_of_uint d)) in
  Zpos acc * 16 ^ len <= Zpos (Pos.of_hex_uint_acc d acc) < (Zpos acc + 1) * 16 ^ len.
Proof.
  revert acc. induction d; intros acc;
    cbn [HexadecimalString.NilEmpty.string_of_uint String.length Pos.of_hex_uint_acc];
    [cbn; lia | ..];
    cbv zeta; rewrite Nat2Z.inj_succ, Z.pow_succ_r by lia;
    match goal with
    | |- context [Pos.of_hex_uint_acc d ?a] => specialize (IHd a)
    end;
    cbv zeta in IHd;
    set (q := 16 ^ Z.of_nat (String.length (HexadecimalString.NilEmpty.string_of_uint d))) in *;
    assert (0 < q) by (apply Z.pow_pos_nonneg; lia);
    nia.
Qed.

Lemma hex_value_upper (d : Hexadecimal.uint) :
  Z.of_N (Pos.of_hex_uint d)
  < 16 ^ Z.of_nat (String.length (HexadecimalString.NilEmpty.string_of_uint d)).
Proof.
  induction d;
    cbn [HexadecimalString.NilEmpty.string_of_uint String.length Pos.of_hex_uint];
    [cbn; lia | ..];
    rewrite Nat2Z.inj_succ, Z.pow_succ_r by lia;
    set (q := 16 ^ Z.of_nat (String.length (HexadecimalString.NilEmpty.string_of_uint d))) in *;
    assert (0 < q) by (apply Z.pow_pos_nonneg; lia);
    try lia;
    match goal with
    | |- context [Pos.of_hex_uint_acc d ?a] => pose proof (hex_acc_bounds d a) as Hb
    end;
    cbv zeta in Hb; fold q in Hb; cbn [Z.of_N]; lia.
Qed.

Lemma hex_value_lower (d : Hexadecimal.uint) :
  d <> Hexadecimal.Nil -> Hexadecimal.nzhead d = d ->
  16 ^ (Z.of_nat (String.length (HexadecimalString.NilEmpty.string_of_uint d)) - 1)
  <= Z.of_N (Pos.of_hex_uint d).
Proof.
  intros Hnil Hnz.
  destruct d as [|t|t|t|t|t|t|t|t|t|t|t|t|t|t|t|t]; [congruence | ..];
    cbn [HexadecimalString.NilEmpty.string_of_uint String.length Pos.of_hex_uint];
    rewrite Nat2Z.inj_succ;
    replace (Z.succ (Z.of_nat (String.length
               (HexadecimalString.NilEmpty.string_of_uint t))) - 1)
      with (Z.of_nat (String.length (HexadecimalString.NilEmpty.string_of_uint t)))
      by lia.
  1: { exfalso. cbn [Hexadecimal.nzhead] in Hnz.
       pose proof (HexadecimalFacts.nb_digits_nzhead t) as Hle.
       rewrite Hnz in Hle. cbn [Hexadecimal.nb_digits] in Hle. lia. }
  all: match goal with
       | |- context [Pos.of_hex_uint_acc ?u ?a] => pose proof (hex_acc_bounds u a) as Hb
       end;
       cbv zeta in Hb; cbn [Z.of_N]; lia.
Qed.

(** X2.  [decimalToHex] pads and never cuts: the text has at least
    [p_padding] digits after "0x", and for a non-negative number it has
    exactly [p_padding] digits iff the number is below 16^p_padding.  With
    the padding 4 of both scripts, exactly the 16-bit values are written
    as six characters. *)
Theorem decimalToHex_width (n : Z) (p_padding : nat) :
  0 <= n -> (1 <= p_padding)%nat ->
  (2 + p_padding <= String.length (decimalToHex n p_padding))%nat
  /\ (String.length (decimalToHex n p_padding) = (2 + p_padding)%nat
      <-> n < 16 ^ Z.of_nat p_padding).
Proof.
  intros Hn Hp. destruct (toString16_nonneg n Hn) as [d [Hs [Hnil [Hval Hnorm]]]].
  assert (Hlen : String.length (decimalToHex n p_padding)
                 = (2 + Nat.max p_padding
                          (String.length (HexadecimalString.NilEmpty.string_of_uint d)))%nat).
  { unfold decimalToHex. cbn [append String.length].
    rewrite padStart_length. unfold toUpperCase. now rewrite mapString_length, Hs. }
  rewrite Hlen. split; [lia|].
  set (len := String.length (HexadecimalString.NilEmpty.string_of_uint d)) in *.
  pose proof (hex_value_upper d) as Hup. fold len in Hup. rewrite Hval in Hup.
  split; intros H.
  - assert (Hle : (len <= p_padding)%nat) by lia.
    apply Z.lt_le_trans with (16 ^ Z.of_nat len); [exact Hup|].
    apply Z.pow_le_mono_r; lia.
  - destruct (Nat.le_gt_cases len p_padding) as [Hle|Hgt]; [lia|].
    exfalso. destruct Hnorm as [H0|Hnz].
    + rewrite H0 in Hs.
      assert (len = 1%nat) by (unfold len; now rewrite <- Hs). lia.
    + pose proof (hex_value_lower d Hnil Hnz) as Hlo. fold len in Hlo. rewrite Hval in Hlo.
      assert (16 ^ Z.of_nat p_padding <= 16 ^ (Z.of_nat len - 1))
        by (apply Z.pow_le_mono_r; lia).
      lia.
Qed.

Lemma decimalToHex_width_witness :
  (0 <= 65535 /\ (1 <= 4)%nat)
  /\ String.length (decimalToHex 65535 4) = 6%nat.
Proof.
  assert (H0 : 0 <= 65535) by discriminate.
  assert (H1 : (1 <= 4)%nat) by (repeat constructor).
  split; [split; assumption|].
  apply (proj2 (decimalToHex_width 65535 4 H0 H1)). reflexivity.
Defined.

(* ================================================================== *)
(** * Emitted text that ends with a comma *)
(* ================================================================== *)

Lemma str_app_inv_tail (a b s : string) : a ++ s = b ++ s -> a = b.
Proof.
  intros H.
  assert (Hl : String.length a = String.length b).
  { apply (f_equal String.length) in H. rewrite !str_length_app in H. lia. }
  rewrite <- (take_app_exact a s), H, Hl. apply take_app_exact.
Qed.

Lemma splitOn_has_piece (sep : ascii) (s : string) : Reader.splitOn sep s <> [].
Proof.
  destruct s as [|c s]; cbn [Reader.splitOn]; [discriminate|].
  destruct (Ascii.eqb c sep); [discriminate|].
  destruct (Reader.splitOn sep s); discriminate.
Qed.

Lemma splitOn_final_sep (sep : ascii) (g : string) :
  Reader.splitOn sep (g ++ String sep EmptyString)
  = (Reader.splitOn sep g ++ [EmptyString])%list.
Proof.
  induction g as [|c g IH]; cbn [append Reader.splitOn].
  - now rewrite Ascii.eqb_refl.
  - destruct (Ascii.eqb c sep); rewrite IH; [reflexivity|].
    pose proof (splitOn_has_piece sep g) as Hne.
    destruct (Reader.splitOn sep g); [congruence | reflexivity].
Qed.

(** A comma after the last entry adds no entry. *)
Lemma entries_final_comma (g : string) :
  Reader.entries (g ++ ",") = Reader.entries g.
Proof.
  unfold Reader.entries. change ("," : string) with (String ","%char EmptyString).
  rewrite splitOn_final_sep, flat_map_app. cbn. apply app_nil_r.
Qed.

Lemma EmitsThenComma_weaken (s b : string) (k : list string) :
  EmitsThenComma s b k -> EmitsThen s b k.
Proof. intros [front [-> Hf]]. now exists (front ++ ","). Qed.

Lemma EmitsThenComma_prepend (s a b : string) (ka kb : list string) :
  Emits a ka -> EmitsThenComma s b kb -> EmitsThenComma s (a ++ b) (ka ++ kb)%list.
Proof.
  intros Ha [front [-> Hf]]. exists (a ++ front). split.
  - now rewrite !str_app_assoc.
  - rewrite str_app_assoc. now apply Emits_app.
Qed.

Lemma EmitsThenComma_extend (s j b : string) (k : list string) :
  EmitsThenComma s b k -> EmitsThenComma (s ++ j) (b ++ j) k.
Proof.
  intros [front [-> Hf]]. exists front. split; [now rewrite !str_app_assoc | exact Hf].
Qed.

Lemma EmitsThenComma_joinAll {A : Type} (s : string) (f : A -> string)
    (tok : A -> list string) :
  filler s ->
  (forall a, EmitsThenComma s (f a) (tok a)) ->
  forall xs, xs <> [] -> EmitsThenComma s (joinAll (map f xs)) (flat_map tok xs).
Proof.
  intros Hs Hf. induction xs as [|a xs IH]; intros Hne; [congruence|].
  destruct xs as [|b xs].
  - simpl. rewrite str_app_nil_r, app_nil_r. apply Hf.
  - change (joinAll (map f (a :: b :: xs))) with (f a ++ joinAll (map f (b :: xs))).
    change (flat_map tok (a :: b :: xs)) with (tok a ++ flat_map tok (b :: xs))%list.
    apply EmitsThenComma_prepend; [|apply IH; discriminate].
    apply (EmitsThen_all s); [exact Hs | apply EmitsThenComma_weaken, Hf].
Qed.

Lemma EmitsThenComma_textFrom {A St : Type} (s : string) (g : St -> A -> string)
    (next : St -> A -> St) (tok : A -> list string) :
  filler s ->
  (forall st a, EmitsThenComma s (g st a) (tok a)) ->
  forall xs st, xs <> [] -> EmitsThenComma s (textFrom g next st xs) (flat_map tok xs).
Proof.
  intros Hs Hg. induction xs as [|a xs IH]; intros st Hne; [congruence|].
  destruct xs as [|b xs].
  - simpl. rewrite str_app_nil_r, app_nil_r. apply Hg.
  - change (textFrom g next st (a :: b :: xs))
      with (g st a ++ textFrom g next (next st a) (b :: xs)).
    change (flat_map tok (a :: b :: xs)) with (tok a ++ flat_map tok (b :: xs))%list.
    apply EmitsThenComma_prepend; [|apply IH; discriminate].
    apply (EmitsThen_all s); [exact Hs | apply EmitsThenComma_weaken, Hg].
Qed.

(** One written entry with its separator: the comma belongs to what is
    emitted, the space comes after it. *)
Lemma entry_emits_comma (digits : string) :
  lacks ","%char digits = true ->
  EmitsThenComma " " (("0x" ++ digits) ++ ", ") ["0x" ++ digits].
Proof.
  intros Hd. exists ("0x" ++ digits). split.
  - now rewrite !str_app_assoc.
  - rewrite <- (str_app_nil_r (("0x" ++ digits) ++ ",")), str_app_assoc.
    apply Emits_entry; [exact Hd | constructor].
Qed.

Lemma affine_entryText_shape (c : Cell) :
  exists digits, Affine.entryText c = "0x" ++ digits /\ lacks ","%char digits = true.
Proof.
  unfold Affine.entryText. destruct (looseEqMinusOne (tileId c)).
  - exists "0000". now split.
  - apply decimalToHex_shape.
Qed.

Lemma regular_cell_emits_comma (c : Cell) :
  EmitsThenComma " " (Regular.entryText c ++ ", ") [Regular.entryText c].
Proof.
  destruct (regular_entryText_shape c) as [digits [-> Hd]]. now apply entry_emits_comma.
Qed.

Lemma affine_cell_emits_comma (c : Cell) :
  EmitsThenComma " " (Affine.entryText c ++ ", ") [Affine.entryText c].
Proof.
  destruct (affine_entryText_shape c) as [digits [-> Hd]]. now apply entry_emits_comma.
Qed.

(* ================================================================== *)
(** * The affine format: the text of one tile layer *)
(* ================================================================== *)

Section AffineLayerText.

Variable l : Layer.

Lemma affine_rowStep_text (p_map : TileMap) (y : nat) (src : string) :
  Affine.rowStep p_map l src y
  = src ++ AffineText.rowText l (Z.to_nat (map_width p_map)) y.
Proof.
  unfold Affine.rowStep, forLoop, AffineText.rowText.
  rewrite (fold_left_appends (Affine.cellStep l y)
             (fun x => AffineText.token l y x ++ ", "))
    by (intros; apply affine_cellStep_entry).
  now rewrite !str_app_assoc.
Qed.

Lemma affine_rows_text (p_map : TileMap) (src : string) :
  forLoop (Z.to_nat (map_height p_map)) (Affine.rowStep p_map l) src
  = src ++ AffineText.layerText l (Z.to_nat (map_width p_map))
             (Z.to_nat (map_height p_map)).
Proof.
  unfold forLoop, AffineText.layerText.
  now rewrite (fold_left_appends (Affine.rowStep p_map l)
                 (AffineText.rowText l (Z.to_nat (map_width p_map))))
    by (intros; apply affine_rowStep_text).
Qed.

Lemma affine_row_emits (w y : nat) :
  (0 < w)%nat ->
  EmitsThenComma (" " ++ LF) (AffineText.rowText l w y) (AffineText.rowTokens l w y).
Proof.
  intros Hw. unfold AffineText.rowText, AffineText.rowTokens.
  rewrite <- str_app_assoc.
  apply EmitsThenComma_extend.
  change (map (AffineText.token l y) (seq 0 w))
    with ([] ++ map (AffineText.token l y) (seq 0 w))%list.
  apply EmitsThenComma_prepend.
  - apply Emits_only_filler. now split.
  - rewrite map_singletons.
    apply (EmitsThenComma_joinAll " " (fun x => AffineText.token l y x ++ ", ")
             (fun x => [AffineText.token l y x])).
    + now split.
    + intros x. apply affine_cell_emits_comma.
    + now apply seq_nonempty.
Qed.

Lemma affine_layer_emits (w h : nat) :
  (0 < w)%nat -> (0 < h)%nat ->
  EmitsThenComma (" " ++ LF) (AffineText.layerText l w h) (AffineText.layerTokens l w h).
Proof.
  intros Hw Hh. unfold AffineText.layerText, AffineText.layerTokens.
  apply (EmitsThenComma_joinAll (" " ++ LF)); [now split | | now apply seq_nonempty].
  intros y. now apply affine_row_emits.
Qed.

Lemma length_affine_rowTokens (w y : nat) :
  List.length (AffineText.rowTokens l w y) = w.
Proof. unfold AffineText.rowTokens. now rewrite length_map, length_seq. Qed.

Lemma length_affine_layerTokens (w h : nat) :
  List.length (AffineText.layerTokens l w h) = (h * w)%nat.
Proof.
  unfold AffineText.layerTokens.
  rewrite (length_flat_map_uniform _ w) by (intros; apply length_affine_rowTokens).
  now rewrite length_seq.
Qed.

Lemma nth_affine_layerTokens (w h y x : nat) :
  (y < h)%nat -> (x < w)%nat ->
  nth_error (AffineText.layerTokens l w h) (y * w + x) = Some (AffineText.token l y x).
Proof.
  intros Hy Hx. unfold AffineText.layerTokens.
  rewrite (nth_error_flat_map_seq _ w) by (try (intros; apply length_affine_rowTokens); lia).
  unfold AffineText.rowTokens. now rewrite nth_error_map_seq by lia.
Qed.

(** The last thing the rows write is the entry of the last cell of the
    last row, its separator and the line feed. *)
Lemma affine_layerText_last (w h : nat) :
  exists front,
    AffineText.layerText l (S w) (S h)
    = (front ++ AffineText.token l h w) ++ ", " ++ LF.
Proof.
  unfold AffineText.layerText, AffineText.rowText.
  rewrite !seq_S, !map_app. cbn [Nat.add map].
  exists (joinAll (map (AffineText.rowText l (S w)) (seq 0 h))
          ++ "    " ++ joinAll (map (fun x => AffineText.token l h x ++ ", ") (seq 0 w))).
  assert (Hj : forall xs t, joinAll (xs ++ [t])%list = joinAll xs ++ t).
  { induction xs as [|a xs IH]; intros t; cbn [joinAll app List.app].
    - apply str_app_nil_r.
    - now rewrite IH, str_app_assoc. }
  rewrite !Hj. unfold AffineText.rowText. rewrite seq_S, map_app. cbn [Nat.add map].
  rewrite Hj. now rewrite !str_app_assoc.
Qed.

End AffineLayerText.

(** A tile layer in a map of positive size: its turn appends the array
    definition, the opening brace, a body that reads back as the layer's
    entries row by row and ends with the last entry, and the closing. *)
Lemma affine_tile_layer_source (p_map : TileMap) (len : Z) (hdr src : string) (l : Layer) :
  isTileLayer l = true -> 0 < map_width p_map -> 0 < map_height p_map ->
  exists body,
    Affine.layerStep p_map len (hdr, src) l
    = (hdr ++ externDeclaration (sanitize (name l)) len,
       src ++ arrayDefinition (sanitize (name l)) len
           ++ "{" ++ LF ++ body ++ LF ++ "};" ++ LF ++ LF)
    /\ AffineText.layerText l (Z.to_nat (map_width p_map)) (Z.to_nat (map_height p_map))
       = (body ++ ",") ++ " " ++ LF
    /\ Reader.entries body
       = AffineText.layerTokens l (Z.to_nat (map_width p_map)) (Z.to_nat (map_height p_map))
    /\ exists front,
         body = front ++ Affine.entryText
                           (cellAt l (map_width p_map - 1) (map_height p_map - 1)).
Proof.
  intros Htile Hw Hh.
  set (w := Z.to_nat (map_width p_map)). set (h := Z.to_nat (map_height p_map)).
  destruct (affine_layer_emits l w h) as [front [Htext Hemits]]; [lia | lia |].
  exists front. split; [|split; [exact Htext|split]].
  - unfold Affine.layerStep. rewrite Htile, affine_rows_text. fold w h. rewrite Htext.
    f_equal. unfold closeArray.
    replace ((src ++ arrayDefinition (sanitize (name l)) len) ++ "{" ++ LF)
      with (src ++ arrayDefinition (sanitize (name l)) len ++ "{" ++ LF)
      by (now rewrite !str_app_assoc).
    replace ((src ++ arrayDefinition (sanitize (name l)) len ++ "{" ++ LF)
             ++ (front ++ ",") ++ " " ++ LF)
      with ((src ++ arrayDefinition (sanitize (name l)) len ++ "{" ++ LF ++ front)
            ++ ("," ++ " " ++ LF))
      by (now rewrite !str_app_assoc).
    rewrite (slice0_drop_suffix _ ("," ++ " " ++ LF) (-3)) by (reflexivity || lia).
    now rewrite !str_app_assoc.
  - rewrite <- (entries_final_comma front). now apply Emits_entries.
  - destruct w as [|w'] eqn:Ew; [lia|]. destruct h as [|h'] eqn:Eh; [lia|].
    destruct (affine_layerText_last l w' h') as [f Hlast].
    exists f. rewrite Htext in Hlast.
    replace ((front ++ ",") ++ " " ++ LF) with (front ++ ", " ++ LF) in Hlast
      by (now rewrite !str_app_assoc).
    apply str_app_inv_tail in Hlast. rewrite Hlast. unfold AffineText.token.
    f_equal. f_equal. f_equal; lia.
Qed.

(* ================================================================== *)
(** * The affine format: the whole source text *)
(* ================================================================== *)

Lemma affine_layerStep_appends (p_map : TileMap) (len : Z) (hdr src : string) (l : Layer) :
  Affine.layerStep p_map len (hdr, src) l
  = (hdr ++ externDeclaration (sanitize (name l)) len,
     src ++ AffineText.layerSource p_map len l).
Proof.
  unfold AffineText.layerSource, Affine.layerStep. cbn [snd]. f_equal.
  change (EmptyString ++ arrayDefinition (sanitize (name l)) len)
    with (arrayDefinition (sanitize (name l)) len).
  destruct (isTileLayer l); [|apply str_app_assoc].
  assert (Hclose : forall t,
            closeArray ((src ++ arrayDefinition (sanitize (name l)) len) ++ t)
            = src ++ closeArray (arrayDefinition (sanitize (name l)) len ++ t)).
  { intros t. unfold closeArray.
    rewrite (str_app_assoc src), slice0_app_keep, !str_app_assoc; [reflexivity | lia |].
    rewrite str_length_app.
    pose proof (arrayDefinition_length (sanitize (name l)) len). lia. }
  rewrite !affine_rows_text.
  rewrite (str_app_assoc (src ++ _)), (str_app_assoc (arrayDefinition _ _)).
  apply Hclose.
Qed.

Lemma affine_layers_append (p_map : TileMap) (len : Z) (ls : list Layer) (hdr src : string) :
  fold_left (Affine.layerStep p_map len) ls (hdr, src)
  = (hdr ++ joinAll (map (fun l => externDeclaration (sanitize (name l)) len) ls),
     src ++ joinAll (map (AffineText.layerSource p_map len) ls)).
Proof.
  revert hdr src. induction ls as [|l ls IH]; intros hdr src; cbn [fold_left map joinAll].
  - now rewrite !str_app_nil_r.
  - now rewrite affine_layerStep_appends, IH, !str_app_assoc.
Qed.

Lemma affine_write_commits (host : FileInfo) (p_map : TileMap) (p_fileName : string) :
  Affine.validSize p_map = true ->
  let fileBaseName := sanitize (completeBaseName host p_fileName) in
  let filePath := toNativeSeparators host (path host p_fileName ++ "/") in
  Affine.write host p_map p_fileName
  = mkOutcome None
      [ ConsoleTime Affine.timerLabel;
        FileCommit (filePath ++ fileBaseName ++ ".h")
          (fst (Affine.fileData fileBaseName p_map));
        ConsoleLog ("Tilemap exported to " ++ filePath ++ fileBaseName ++ ".h");
        FileCommit (filePath ++ fileBaseName ++ ".c")
          (snd (Affine.fileData fileBaseName p_map));
        ConsoleLog ("Tilemap exported to " ++ filePath ++ fileBaseName ++ ".c");
        ConsoleTimeEnd Affine.timerLabel ].
Proof.
  intros Hv fileBaseName filePath. unfold Affine.write.
  rewrite Hv. simpl negb. cbv iota.
  fold fileBaseName. fold filePath.
  now destruct (Affine.fileData fileBaseName p_map).
Qed.

Lemma affine_validSize_positive (p_map : TileMap) :
  Affine.validSize p_map = true ->
  0 < map_width p_map /\ 0 < map_height p_map.
Proof.
  intros Hv. apply affine_validSize_iff in Hv.
  destruct Hv as [[-> ->]|[[-> ->]|[[-> ->]|[-> ->]]]]; split; reflexivity.
Qed.

(** X3.  In the format "gba-affine", for a map of a valid size W x H and
    any tile layer of it, the source file [write] commits holds, right
    after the text of the layers before it, the layer's array definition,
    the opening brace, a body and the closing brace.  The body holds
    exactly W*H entries in row-major order, the entry of the cell (x, y)
    at index y*W + x, and it ends with the entry of the cell
    (W-1, H-1): no separator is left after the last entry.  The cells are
    read within the map's width and height; the layer's own size is never
    looked at. *)
Theorem affine_entries_row_major
    (host : FileInfo) (p_map : TileMap) (p_fileName : string)
    (before after : list Layer) (currentLayer : Layer) :
  let W := map_width p_map in
  let H := map_height p_map in
  let fileBaseName := sanitize (completeBaseName host p_fileName) in
  let filePath := toNativeSeparators host (path host p_fileName ++ "/") in
  let reached :=
    snd (fold_left (Affine.layerStep p_map (W * H)) before
           (Affine.headerDefines fileBaseName p_map (W * H), includeLine fileBaseName)) in
  Affine.validSize p_map = true ->
  layers p_map = (before ++ currentLayer :: after)%list ->
  isTileLayer currentLayer = true ->
  exists body rest,
    In (FileCommit (filePath ++ fileBaseName ++ ".c")
          (reached ++ arrayDefinition (sanitize (name currentLayer)) (W * H)
             ++ "{" ++ LF ++ body ++ LF ++ "};" ++ LF ++ rest))
       (effects (Affine.write host p_map p_fileName))
    /\ Z.of_nat (List.length (Reader.entries body)) = W * H
    /\ (forall x y : nat,
          Z.of_nat x < W -> Z.of_nat y < H ->
          nth_error (Reader.entries body) (y * Z.to_nat W + x)
          = Some (Affine.entryText (cellAt currentLayer (Z.of_nat x) (Z.of_nat y))))
    /\ exists front,
         body = front ++ Affine.entryText (cellAt currentLayer (W - 1) (H - 1)).
Proof.
  intros W H fileBaseName filePath reached Hvalid Hlayers Htile.
  destruct (affine_validSize_positive p_map Hvalid) as [HW HH]. fold W in HW. fold H in HH.
  destruct (affine_tile_layer_source p_map (W * H) EmptyString reached currentLayer
              Htile HW HH) as [body [Hstep [_ [Hread Hlast]]]].
  exists body,
    (slice0 (LF ++ joinAll (map (AffineText.layerSource p_map (W * H)) after)) (-1)).
  split; [|split; [|split]].
  - rewrite affine_write_commits by assumption.
    fold fileBaseName. fold filePath. cbn [effects]. right. right. right. left. f_equal.
    unfold Affine.fileData. fold W. fold H. rewrite Hlayers, fold_left_app.
    rewrite (surjective_pairing
               (fold_left (Affine.layerStep p_map (W * H)) before
                  (Affine.headerDefines fileBaseName p_map (W * H),
                   includeLine fileBaseName))).
    fold reached. cbn [fold_left].
    rewrite affine_layerStep_appends, affine_layers_append. cbn [snd].
    pose proof (f_equal snd Hstep) as Hsrc. cbn [snd] in Hsrc.
    rewrite affine_layerStep_appends in Hsrc. cbn [snd] in Hsrc.
    apply str_app_inv_head in Hsrc. rewrite Hsrc.
    rewrite !str_app_assoc.
    set (tail := LF ++ joinAll (map (AffineText.layerSource p_map (W * H)) after)).
    rewrite <- !str_app_assoc.
    apply slice0_app_keep; [lia|].
    unfold tail. rewrite str_length_app. simpl. lia.
  - rewrite Hread, length_affine_layerTokens. fold W H. nia.
  - intros x y Hx Hy. rewrite Hread. fold W H.
    now rewrite nth_affine_layerTokens by lia.
  - exact Hlast.
Qed.

(* ================================================================== *)
(** * The regular format: the end of a body, and layers of any size *)
(* ================================================================== *)

Lemma ends_with_comma_split (s t g : string) :
  t <> EmptyString -> s ++ t = g ++ "," ->
  exists g', t = g' ++ "," /\ g = s ++ g'.
Proof.
  revert g. induction s as [|c s IH]; intros g Ht H.
  - exists g. now split.
  - destruct g as [|c' g].
    + cbn in H. injection H as _ H. destruct s; [now destruct t | discriminate].
    + cbn in H. injection H as -> H.
      destruct (IH g Ht H) as [g' [H1 H2]]. exists g'. split; [exact H1 | now rewrite H2].
Qed.

Lemma lacks_not_at_end (c : ascii) (g : string) :
  lacks c (g ++ String c EmptyString) = false.
Proof.
  rewrite lacks_app. cbn. rewrite Ascii.eqb_refl. cbn. apply andb_false_r.
Qed.

Lemma Emits_nothing (text : string) (tokens : list string) :
  Emits text tokens -> text = EmptyString -> tokens = [].
Proof.
  induction 1 as [|j text tokens Hj Hem IH|digits text tokens Hd Hem IH]; intros Ht.
  - reflexivity.
  - apply IH. destruct j; [exact Ht | discriminate].
  - discriminate.
Qed.

(** Emitted text that ends with a comma ends with its last entry and that
    comma. *)
Lemma Emits_last_entry (text : string) (tokens : list string) :
  Emits text tokens ->
  forall g, text = g ++ "," ->
  exists f init tok, g = f ++ tok /\ tokens = (init ++ [tok])%list.
Proof.
  induction 1 as [|j text tokens Hj Hem IH|digits text tokens Hd Hem IH]; intros g Hg.
  - destruct g; discriminate.
  - destruct text as [|c text].
    + exfalso. rewrite str_app_nil_r in Hg. destruct Hj as [Hc _].
      rewrite Hg in Hc. change ("," : string) with (String ","%char EmptyString) in Hc.
      rewrite lacks_not_at_end in Hc. discriminate.
    + destruct (ends_with_comma_split j (String c text) g) as [g' [H1 H2]];
        [discriminate | exact Hg |].
      destruct (IH g' H1) as [f [init [tok [Hf Ht]]]].
      exists (j ++ f), init, tok. split; [|exact Ht].
      now rewrite H2, Hf, str_app_assoc.
  - destruct text as [|c text].
    + rewrite (Emits_nothing _ _ Hem eq_refl).
      exists EmptyString, [], ("0x" ++ digits). split; [|reflexivity].
      apply str_app_inv_tail with (s := ",").
      rewrite <- Hg. reflexivity.
    + rewrite <- str_app_assoc in Hg.
      destruct (ends_with_comma_split (("0x" ++ digits) ++ ",") (String c text) g)
        as [g' [H1 H2]]; [discriminate | exact Hg |].
      destruct (IH g' H1) as [f [init [tok [Hf Ht]]]].
      exists ((("0x" ++ digits) ++ ",") ++ f), (("0x" ++ digits) :: init), tok.
      split; [rewrite H2, Hf; symmetry; apply str_app_assoc | now rewrite Ht].
Qed.

Section RegularLayerEnd.

Variable l : Layer.

Lemma regular_row_emits_comma (j k y : nat) :
  EmitsThenComma (" " ++ LF) (RegularText.rowText l j k y) (RegularText.rowTokens l j k y).
Proof.
  unfold RegularText.rowText, RegularText.rowTokens.
  rewrite <- str_app_assoc.
  apply EmitsThenComma_extend.
  change (map (RegularText.token l j k y) (seq 0 32))
    with ([] ++ map (RegularText.token l j k y) (seq 0 32))%list.
  apply EmitsThenComma_prepend.
  - apply Emits_only_filler. now split.
  - rewrite map_singletons.
    apply (EmitsThenComma_joinAll " " (fun x => RegularText.token l j k y x ++ ", ")
             (fun x => [RegularText.token l j k y x])).
    + now split.
    + intros x. apply regular_cell_emits_comma.
    + discriminate.
Qed.

Lemma regular_block_emits_comma (j k : nat) (id : Z) :
  EmitsThenComma ((" " ++ LF) ++ LF) (RegularText.blockText l j id k)
    (RegularText.blockTokens l j k).
Proof.
  unfold RegularText.blockText, RegularText.blockTokens.
  rewrite <- (app_nil_l (flat_map _ _)).
  apply EmitsThenComma_prepend.
  - apply Emits_only_filler. split.
    + rewrite !lacks_app, lacks_numberToString by now left. reflexivity.
    + rewrite !lacks_app, lacks_numberToString by now right. reflexivity.
  - apply EmitsThenComma_extend.
    apply (EmitsThenComma_joinAll (" " ++ LF) (RegularText.rowText l j k)
             (RegularText.rowTokens l j k)).
    + exact filler_spaces_row.
    + intros y. apply regular_row_emits_comma.
    + discriminate.
Qed.

Lemma regular_layer_emits_comma (nx ny : nat) :
  (0 < nx)%nat -> (0 < ny)%nat ->
  EmitsThenComma ((" " ++ LF) ++ LF) (RegularText.layerText l nx ny)
    (RegularText.layerTokens l nx ny).
Proof.
  intros Hx Hy. unfold RegularText.layerText, RegularText.layerTokens.
  apply (EmitsThenComma_textFrom ((" " ++ LF) ++ LF));
    [exact filler_spaces_block| |now apply seq_nonempty].
  intros id j. unfold RegularText.gridRowText, RegularText.gridRowTokens.
  apply (EmitsThenComma_textFrom ((" " ++ LF) ++ LF));
    [exact filler_spaces_block| |now apply seq_nonempty].
  intros id' k. apply regular_block_emits_comma.
Qed.

End RegularLayerEnd.

Lemma countBelowQuotient_positive (n : Z) :
  0 < n ->
  (0 < countBelowQuotient n 32)%nat
  /\ Z.of_nat (countBelowQuotient n 32) = (n + 31) / 32
  /\ n <= 32 * ((n + 31) / 32).
Proof.
  intros Hn. unfold countBelowQuotient.
  replace (n + 32 - 1) with (n + 31) by lia.
  pose proof (Z.div_mod (n + 31) 32 ltac:(lia)) as Hdm.
  pose proof (Z.mod_pos_bound (n + 31) 32 ltac:(lia)) as Hb.
  split; [|split]; lia.
Qed.

Lemma last_of_snoc {A : Type} (init : list A) (tok t : A) (xs : list A) (i : nat) :
  xs = (init ++ [tok])%list -> nth_error xs i = Some t -> S i = List.length xs -> tok = t.
Proof.
  intros -> Hn Hl. rewrite length_app in Hl. cbn in Hl.
  rewrite nth_error_app2 in Hn by lia.
  replace (i - List.length init)%nat with 0%nat in Hn by lia. cbn in Hn. congruence.
Qed.

(** X4.  In the format "gba", the close step of a tile layer with at
    least one screenblock removes the space and the two line feeds that
    end the last screenblock, not the comma before them: the body of the
    array ends with the entry of the last cell of the last screenblock
    followed by a comma. *)
Theorem regular_body_keeps_last_comma
    (tilemapLength : Z) (headerFileData sourceFileData : string) (currentLayer : Layer) :
  isTileLayer currentLayer = true ->
  0 < width currentLayer -> 0 < height currentLayer ->
  let lastX := 32 * ((width currentLayer + 31) / 32) - 1 in
  let lastY := 32 * ((height currentLayer + 31) / 32) - 1 in
  exists front,
    snd (Regular.layerStep tilemapLength (headerFileData, sourceFileData) currentLayer)
    = sourceFileData ++ arrayDefinition (sanitize (name currentLayer)) tilemapLength
        ++ "{" ++ LF
        ++ (front ++ Regular.entryText (cellAt currentLayer lastX lastY) ++ ",")
        ++ LF ++ "};" ++ LF ++ LF.
Proof.
  intros Htile Hw Hh lastX lastY.
  destruct (countBelowQuotient_positive _ Hw) as [Hnx [Hqx _]].
  destruct (countBelowQuotient_positive _ Hh) as [Hny [Hqy _]].
  set (nx := countBelowQuotient (width currentLayer) 32) in *.
  set (ny := countBelowQuotient (height currentLayer) 32) in *.
  destruct (regular_tile_layer_source tilemapLength headerFileData sourceFileData
              currentLayer nx ny Htile eq_refl eq_refl Hnx Hny)
    as [body [Hstep [Htext _]]].
  destruct (regular_layer_emits_comma currentLayer nx ny Hnx Hny) as [g [Hg Hem]].
  assert (Hbody : body = g ++ ",").
  { rewrite Htext in Hg. now apply str_app_inv_tail in Hg. }
  destruct (Emits_last_entry _ _ Hem g eq_refl) as [f [init [tok [Hf Htoks]]]].
  assert (Htok : tok = RegularText.token currentLayer (ny - 1) (nx - 1) 31 31).
  { apply (last_of_snoc init tok _ _ (((ny - 1) * nx + (nx - 1)) * (32 * 32) + 31 * 32 + 31)
             Htoks).
    - apply nth_layerTokens; lia.
    - rewrite length_layerTokens. nia. }
  exists f. rewrite Hstep. cbn [snd]. rewrite Hbody, Hf, Htok.
  unfold RegularText.token, RegularText.cellCoords. cbn [fst snd].
  change Regular.SCREENBLOCKWIDTH with 32. change Regular.SCREENBLOCKHEIGHT with 32.
  replace (Z.of_nat 31 + 32 * Z.of_nat (nx - 1)) with lastX by (unfold lastX; lia).
  replace (Z.of_nat 31 + 32 * Z.of_nat (ny - 1)) with lastY by (unfold lastY; lia).
  now rewrite !str_app_assoc.
Qed.

(** X5.  In the format "gba", the screenblocks of a tile layer are counted
    from the layer's own width and height, rounded up to whole
    screenblocks: whatever length the array is declared with, the body
    holds 1024 entries for each of the ceil(width/32) x ceil(height/32)
    screenblocks, at least width*height of them, the entry of the cell
    (x + 32*k, y + 32*j) at index (j*ceil(width/32) + k)*1024 + y*32 + x,
    cells beyond the layer's width and height included. *)
Theorem regular_entries_any_layer_size
    (tilemapLength : Z) (headerFileData sourceFileData : string) (currentLayer : Layer) :
  isTileLayer currentLayer = true ->
  0 < width currentLayer -> 0 < height currentLayer ->
  let nx := (width currentLayer + 31) / 32 in
  let ny := (height currentLayer + 31) / 32 in
  exists body,
    snd (Regular.layerStep tilemapLength (headerFileData, sourceFileData) currentLayer)
    = sourceFileData ++ arrayDefinition (sanitize (name currentLayer)) tilemapLength
        ++ "{" ++ LF ++ body ++ LF ++ "};" ++ LF ++ LF
    /\ Z.of_nat (List.length (Reader.entries body)) = 1024 * nx * ny
    /\ width currentLayer * height currentLayer <= 1024 * nx * ny
    /\ forall j k y x : nat,
         Z.of_nat j < ny -> Z.of_nat k < nx -> (y < 32)%nat -> (x < 32)%nat ->
         nth_error (Reader.entries body) ((j * Z.to_nat nx + k) * 1024 + y * 32 + x)
         = Some (Regular.entryText
                   (cellAt currentLayer (Z.of_nat x + 32 * Z.of_nat k)
                                        (Z.of_nat y + 32 * Z.of_nat j))).
Proof.
  intros Htile Hw Hh nx ny.
  destruct (countBelowQuotient_positive _ Hw) as [Hnx [Hqx Hcx]].
  destruct (countBelowQuotient_positive _ Hh) as [Hny [Hqy Hcy]].
  fold nx in Hqx, Hcx. fold ny in Hqy, Hcy.
  destruct (regular_tile_layer_source tilemapLength headerFileData sourceFileData
              currentLayer _ _ Htile eq_refl eq_refl Hnx Hny)
    as [body [Hstep [_ Hread]]].
  exists body. rewrite Hstep, Hread. cbn [snd].
  change Regular.SCREENBLOCKWIDTH with 32. change Regular.SCREENBLOCKHEIGHT with 32.
  split; [reflexivity|]. split; [|split].
  - rewrite length_layerTokens, !Nat2Z.inj_mul, Hqx, Hqy.
    change (Z.of_nat 32) with 32. lia.
  - nia.
  - intros j k y x Hj Hk Hy Hx.
    change 1024%nat with (32 * 32)%nat.
    replace (Z.to_nat nx) with (countBelowQuotient (width currentLayer) 32) by lia.
    rewrite nth_layerTokens by lia. reflexivity.
Qed.

Lemma fold_left_idle {A St : Type} (f : St -> A -> St) (xs : list A) (st : St) :
  (forall s a, f s a = s) -> fold_left f xs st = st.
Proof.
  intros Hf. induction xs as [|a xs IH]; cbn [fold_left]; [reflexivity|].
  now rewrite Hf.
Qed.

(** X6.  In the format "gba", a tile layer whose width or height is not
    positive has no screenblock: its loops write nothing, and the close
    step removes the opening brace with the line feeds around it.  What is
    left of the definition is its first line and the closing brace, as for
    a layer that is not a tile layer. *)
Theorem regular_tile_layer_without_blocks
    (tilemapLength : Z) (headerFileData sourceFileData : string) (currentLayer : Layer) :
  isTileLayer currentLayer = true ->
  width currentLayer <= 0 \/ height currentLayer <= 0 ->
  Regular.layerStep tilemapLength (headerFileData, sourceFileData) currentLayer
  = (headerFileData ++ externDeclaration (sanitize (name currentLayer)) tilemapLength,
     sourceFileData ++ "const unsigned short " ++ sanitize (name currentLayer)
       ++ "[" ++ numberToString tilemapLength ++ "] __attribute__((aligned(4))) ="
       ++ LF ++ "};" ++ LF ++ LF).
Proof.
  intros Htile Hdims.
  assert (Hloops : forall src, Regular.tileLoops currentLayer src = src).
  { intros src. unfold Regular.tileLoops, forLoop.
    assert (Hzero : forall n, n <= 0 -> countBelowQuotient n 32 = 0%nat).
    { intros n Hn. unfold countBelowQuotient.
      pose proof (Z.div_mod (n + 32 - 1) 32 ltac:(lia)) as Hdm.
      pose proof (Z.mod_pos_bound (n + 32 - 1) 32 ltac:(lia)) as Hb. lia. }
    change Regular.SCREENBLOCKWIDTH with 32. change Regular.SCREENBLOCKHEIGHT with 32.
    destruct Hdims as [Hw|Hh].
    - rewrite (Hzero _ Hw). cbn [seq]. now rewrite fold_left_idle.
    - now rewrite (Hzero _ Hh). }
  unfold Regular.layerStep. rewrite Htile, Hloops. f_equal.
  unfold closeArray, arrayDefinition.
  replace ((sourceFileData ++ "const unsigned short " ++ sanitize (name currentLayer)
              ++ "[" ++ numberToString tilemapLength
              ++ "] __attribute__((aligned(4))) =" ++ LF) ++ "{" ++ LF)
    with ((sourceFileData ++ "const unsigned short " ++ sanitize (name currentLayer)
             ++ "[" ++ numberToString tilemapLength
             ++ "] __attribute__((aligned(4))) =") ++ (LF ++ "{" ++ LF))
    by (now rewrite !str_app_assoc).
  rewrite (slice0_drop_suffix _ (LF ++ "{" ++ LF) (-3)) by (reflexivity || lia).
  now rewrite !str_app_assoc.
Qed.

(* ================================================================== *)
(** * How the turns of the layers compose *)
(* ================================================================== *)

(** X7.  In both formats the header is the defines, then one extern
    declaration for every layer of the map, in the order of the layers and
    for tile layers and other layers alike, then the closing lines;
    nothing in it depends on the cells. *)
Theorem header_declares_every_layer (fileBaseName : string) (p_map : TileMap) :
  let tilemapLength := map_width p_map * map_height p_map in
  let declarations :=
    joinAll (map (fun l => externDeclaration (sanitize (name l)) tilemapLength)
               (layers p_map)) in
  fst (Regular.fileData fileBaseName p_map)
  = headerClose (Regular.headerDefines fileBaseName p_map tilemapLength ++ declarations)
  /\ fst (Affine.fileData fileBaseName p_map)
     = headerClose (Affine.headerDefines fileBaseName p_map tilemapLength ++ declarations).
Proof.
  intros tilemapLength declarations. split.
  - unfold Regular.fileData. fold tilemapLength. now rewrite regular_layers_append.
  - unfold Affine.fileData. fold tilemapLength. now rewrite affine_layers_append.
Qed.

(** X8.  In both formats the turn of a layer leaves the text written
    before it untouched: it appends a text of its own that depends on
    neither the source text nor the header text it is given.  The three
    characters a close step removes are always the layer's own, and the
    source file is the include line followed by the layers' texts, less
    its last character. *)
Theorem layer_turns_only_append
    (p_map : TileMap) (tilemapLength : Z) (headerFileData sourceFileData : string)
    (currentLayer : Layer) (fileBaseName : string) :
  snd (Regular.layerStep tilemapLength (headerFileData, sourceFileData) currentLayer)
  = sourceFileData
      ++ snd (Regular.layerStep tilemapLength (EmptyString, EmptyString) currentLayer)
  /\ snd (Affine.layerStep p_map tilemapLength (headerFileData, sourceFileData) currentLayer)
     = sourceFileData
         ++ snd (Affine.layerStep p_map tilemapLength (EmptyString, EmptyString) currentLayer)
  /\ snd (Regular.fileData fileBaseName p_map)
     = slice0 (includeLine fileBaseName
                 ++ joinAll (map (fun l =>
                                    snd (Regular.layerStep (map_width p_map * map_height p_map)
                                           (EmptyString, EmptyString) l))
                               (layers p_map))) (-1)
  /\ snd (Affine.fileData fileBaseName p_map)
     = slice0 (includeLine fileBaseName
                 ++ joinAll (map (fun l =>
                                    snd (Affine.layerStep p_map
                                           (map_width p_map * map_height p_map)
                                           (EmptyString, EmptyString) l))
                               (layers p_map))) (-1).
Proof.
  split; [|split; [|split]].
  - now rewrite regular_layerStep_appends.
  - now rewrite affine_layerStep_appends.
  - unfold Regular.fileData. now rewrite regular_layers_append.
  - unfold Affine.fileData. now rewrite affine_layers_append.
Qed.

(* ================================================================== *)
(** * What the formats read of a layer *)
(* ================================================================== *)

Lemma fold_left_pointwise_in {A St : Type} (f g : St -> A -> St) (xs : list A) :
  (forall s a, In a xs -> f s a = g s a) ->
  forall s, fold_left f xs s = fold_left g xs s.
Proof.
  induction xs as [|a xs IH]; intros H s; cbn [fold_left]; [reflexivity|].
  rewrite H by now left. apply IH. intros s' b Hb. apply H. now right.
Qed.

Lemma affine_layerStep_same_ids (m1 m2 : TileMap) (len : Z) (st : string * string)
    (l1 l2 : Layer) :
  map_width m1 = map_width m2 -> map_height m1 = map_height m2 ->
  sameTileIdsWithin (map_width m1) (map_height m1) l1 l2 ->
  Affine.layerStep m1 len st l1 = Affine.layerStep m2 len st l2.
Proof.
  intros Hw Hh [Hn [Ht Hids]]. destruct st as [hdr src].
  unfold Affine.layerStep. rewrite Hn, Ht, <- Hh.
  destruct (isTileLayer l2); [|reflexivity].
  f_equal. f_equal.
  unfold forLoop. apply fold_left_pointwise_in. intros s y Hy. apply in_seq in Hy.
  unfold Affine.rowStep. rewrite <- Hw. f_equal.
  unfold forLoop. apply fold_left_pointwise_in. intros s' x Hx. apply in_seq in Hx.
  unfold Affine.cellStep. rewrite Hids by lia. reflexivity.
Qed.

Lemma fold_left_Forall2_both {A St : Type} (R : A -> A -> Prop) (f g : St -> A -> St) :
  (forall st a b, R a b -> f st a = g st b) ->
  forall xs ys, Forall2 R xs ys -> forall st, fold_left f xs st = fold_left g ys st.
Proof.
  intros Hf xs ys HR. induction HR as [|a b xs ys Hab _ IH]; intros st; cbn [fold_left].
  - reflexivity.
  - now rewrite (Hf st a b Hab), IH.
Qed.

(** X9.  The format "gba-affine" reads of a layer its name, its kind and
    the tile ids of the cells inside the map's width and height, and
    nothing else: two maps of the same size whose layers agree on these
    give the same outcome, whatever the flip flags, the cells outside and
    the layers' own widths and heights are. *)
Theorem affine_reads_tile_ids_within_map
    (host : FileInfo) (m1 m2 : TileMap) (p_fileName : string) :
  map_width m1 = map_width m2 -> map_height m1 = map_height m2 ->
  Forall2 (sameTileIdsWithin (map_width m1) (map_height m1)) (layers m1) (layers m2) ->
  Affine.write host m1 p_fileName = Affine.write host m2 p_fileName.
Proof.
  intros Hw Hh Hl.
  assert (Hdata : forall base, Affine.fileData base m1 = Affine.fileData base m2).
  { intros base. unfold Affine.fileData, Affine.headerDefines. rewrite <- Hw, <- Hh.
    rewrite (fold_left_Forall2_both _
               (Affine.layerStep m1 (map_width m1 * map_height m1))
               (Affine.layerStep m2 (map_width m1 * map_height m1))
               (fun st a b Hab => affine_layerStep_same_ids m1 m2 _ st a b Hw Hh Hab)
               _ _ Hl).
    reflexivity. }
  unfold Affine.write, Affine.validSize. rewrite <- Hw, <- Hh. now rewrite Hdata.
Qed.

Lemma regular_layerStep_same_blocks (len : Z) (st : string * string) (l1 l2 : Layer) :
  sameCellsWithinBlocks l1 l2 ->
  Regular.layerStep len st l1 = Regular.layerStep len st l2.
Proof.
  intros [Hn [Hw [Hh [Ht Hcells]]]]. destruct st as [hdr src].
  unfold Regular.layerStep. rewrite Hn, Ht.
  destruct (isTileLayer l2); [|reflexivity].
  f_equal. f_equal.
  unfold Regular.tileLoops. rewrite <- Hw, <- Hh. f_equal.
  change Regular.SCREENBLOCKWIDTH with 32. change Regular.SCREENBLOCKHEIGHT with 32.
  unfold forLoop. apply fold_left_pointwise_in. intros st j Hj. apply in_seq in Hj.
  apply fold_left_pointwise_in. intros [s id] k Hk. apply in_seq in Hk.
  unfold Regular.blockStep. f_equal. f_equal.
  unfold forLoop. apply fold_left_pointwise_in. intros s' y Hy. apply in_seq in Hy.
  unfold Regular.rowStep. f_equal.
  unfold forLoop. apply fold_left_pointwise_in. intros s'' x Hx. apply in_seq in Hx.
  unfold Regular.cellStep.
  unfold Regular.SCREENBLOCKWIDTH, Regular.SCREENBLOCKHEIGHT in *.
  change (Z.to_nat 32) with 32%nat in Hy, Hx.
  rewrite Hcells by lia. reflexivity.
Qed.

(** X10.  The format "gba" reads of a tile layer only the cells of its
    screenblocks, the coordinates from 0 up to the width and the height
    rounded up to multiples of 32: two maps of the same size whose layers
    agree on name, size, kind and these cells give the same outcome,
    whatever the cells outside are. *)
Theorem regular_reads_cells_within_blocks
    (host : FileInfo) (m1 m2 : TileMap) (p_fileName : string) :
  map_width m1 = map_width m2 -> map_height m1 = map_height m2 ->
  Forall2 sameCellsWithinBlocks (layers m1) (layers m2) ->
  Regular.write host m1 p_fileName = Regular.write host m2 p_fileName.
Proof.
  intros Hw Hh Hl.
  assert (Hdata : forall base, Regular.fileData base m1 = Regular.fileData base m2).
  { intros base. unfold Regular.fileData, Regular.headerDefines. rewrite <- Hw, <- Hh.
    rewrite (fold_left_Forall2 sameCellsWithinBlocks _
               (fun st a b Hab => regular_layerStep_same_blocks _ st a b Hab) _ _ Hl).
    reflexivity. }
  unfold Regular.write. rewrite <- Hw, <- Hh. now rewrite Hdata.
Qed.

(* ================================================================== *)
(** * One screenblock: the two formats side by side *)
(* ================================================================== *)

Lemma entryText_unflipped (c : Cell) :
  unflipped c -> Regular.entryText c = Affine.entryText c.
Proof.
  intros [Hh Hv]. unfold Regular.entryText, Affine.entryText, Regular.screenEntry.
  now rewrite Hh, Hv.
Qed.

Lemma flat_map_pointwise_in {A B : Type} (f g : A -> list B) (xs : list A) :
  (forall a, In a xs -> f a = g a) -> flat_map f xs = flat_map g xs.
Proof.
  induction xs as [|a xs IH]; intros H; cbn [flat_map]; [reflexivity|].
  rewrite (H a) by now left. f_equal. apply IH. intros b Hb. apply H. now right.
Qed.

Section OneScreenblock.

Variable l : Layer.
Hypothesis Hplain :
  forall x y, 0 <= x < 32 -> 0 <= y < 32 -> unflipped (cellAt l x y).

Lemma one_block_token (y x : nat) :
  (y < 32)%nat -> (x < 32)%nat ->
  RegularText.token l 0 0 y x = AffineText.token l y x.
Proof.
  intros Hy Hx. unfold RegularText.token, AffineText.token, RegularText.cellCoords.
  cbn [fst snd]. unfold Regular.SCREENBLOCKWIDTH, Regular.SCREENBLOCKHEIGHT.
  replace (Z.of_nat x + 32 * Z.of_nat 0) with (Z.of_nat x) by lia.
  replace (Z.of_nat y + 32 * Z.of_nat 0) with (Z.of_nat y) by lia.
  apply entryText_unflipped, Hplain; lia.
Qed.

Lemma one_block_tokens :
  RegularText.layerTokens l 1 1 = AffineText.layerTokens l 32 32.
Proof.
  unfold RegularText.layerTokens, RegularText.gridRowTokens. cbn [seq flat_map].
  rewrite !app_nil_r.
  unfold RegularText.blockTokens, AffineText.layerTokens.
  apply flat_map_pointwise_in. intros y Hy. apply in_seq in Hy.
  unfold RegularText.rowTokens, AffineText.rowTokens.
  apply map_ext_in. intros x Hx. apply in_seq in Hx.
  apply one_block_token; lia.
Qed.

Lemma one_block_text :
  RegularText.layerText l 1 1
  = ("    // Screeblock 0" ++ LF) ++ AffineText.layerText l 32 32 ++ LF.
Proof.
  unfold RegularText.layerText, RegularText.gridRowText. cbn [seq textFrom].
  rewrite !str_app_nil_r. unfold RegularText.blockText.
  change (numberToString 0) with "0". f_equal. f_equal.
  unfold AffineText.layerText. f_equal.
  apply map_ext_in. intros y Hy. apply in_seq in Hy.
  unfold RegularText.rowText, AffineText.rowText. f_equal. f_equal. f_equal.
  apply map_ext_in. intros x Hx. apply in_seq in Hx.
  now rewrite one_block_token by lia.
Qed.

End OneScreenblock.

(** X11.  A 32x32 tile layer without flipped cells, in a 32x32 map: the
    two formats write the same entries in the same order.  The body the
    format "gba" writes is the body the format "gba-affine" writes with
    the comment line of screenblock 0 before it and a comma after it. *)
Theorem one_screenblock_same_entries
    (p_map : TileMap) (tilemapLength : Z) (headerR sourceR headerA sourceA : string)
    (currentLayer : Layer) :
  map_width p_map = 32 -> map_height p_map = 32 ->
  width currentLayer = 32 -> height currentLayer = 32 ->
  isTileLayer currentLayer = true ->
  (forall x y, 0 <= x < 32 -> 0 <= y < 32 -> unflipped (cellAt currentLayer x y)) ->
  exists bodyR bodyA,
    snd (Regular.layerStep tilemapLength (headerR, sourceR) currentLayer)
    = sourceR ++ arrayDefinition (sanitize (name currentLayer)) tilemapLength
        ++ "{" ++ LF ++ bodyR ++ LF ++ "};" ++ LF ++ LF
    /\ snd (Affine.layerStep p_map tilemapLength (headerA, sourceA) currentLayer)
       = sourceA ++ arrayDefinition (sanitize (name currentLayer)) tilemapLength
           ++ "{" ++ LF ++ bodyA ++ LF ++ "};" ++ LF ++ LF
    /\ Reader.entries bodyR = Reader.entries bodyA
    /\ bodyR = ("    // Screeblock 0" ++ LF) ++ bodyA ++ ",".
Proof.
  intros Hmw Hmh Hw Hh Htile Hplain.
  destruct (regular_tile_layer_source tilemapLength headerR sourceR currentLayer 1 1)
    as [bodyR [HstepR [HtextR HreadR]]];
    try assumption; try (rewrite ?Hw, ?Hh; reflexivity); try lia.
  destruct (affine_tile_layer_source p_map tilemapLength headerA sourceA currentLayer)
    as [bodyA [HstepA [HtextA [HreadA _]]]]; try assumption; try lia.
  rewrite Hmw, Hmh in HtextA, HreadA.
  change (Z.to_nat 32) with 32%nat in HtextA, HreadA.
  exists bodyR, bodyA. rewrite HstepR, HstepA. cbn [snd].
  split; [reflexivity|]. split; [reflexivity|]. split.
  - now rewrite HreadR, HreadA, one_block_tokens.
  - rewrite (one_block_text currentLayer Hplain), HtextA in HtextR.
    apply str_app_inv_tail with (s := (" " ++ LF) ++ LF).
    rewrite <- HtextR. now rewrite !str_app_assoc.
Qed.

(* ================================================================== *)
(** * The numbers of the screenblocks *)
(* ================================================================== *)

Lemma textFrom_counter_seq (g : Z -> nat -> string) (d : Z) (n s : nat) (id : Z) :
  textFrom g (fun i _ => i + d) id (seq s n)
  = joinAll (map (fun a => g (id + d * Z.of_nat (a - s)) a) (seq s n)).
Proof.
  revert s id. induction n as [|n IH]; intros s id; cbn [seq textFrom map joinAll].
  - reflexivity.
  - rewrite IH. f_equal.
    + f_equal. rewrite Nat.sub_diag. lia.
    + f_equal. apply map_ext_in. intros a Ha. apply in_seq in Ha. f_equal.
      replace (a - s)%nat with (S (a - S s)) by lia.
      rewrite Nat2Z.inj_succ. lia.
Qed.

(** X12.  In the format "gba" the screenblocks of a layer are written row
    by row of the grid, and the comment line before each carries its
    number in that order, from 0: screenblock (k, j) of a grid that is nx
    screenblocks wide is number j*nx + k. *)
Theorem regular_screenblocks_numbered (currentLayer : Layer) (sourceFileData : string) :
  let nx := countBelowQuotient (width currentLayer) 32 in
  let ny := countBelowQuotient (height currentLayer) 32 in
  Regular.tileLoops currentLayer sourceFileData
  = sourceFileData
      ++ joinAll
           (map (fun j =>
                   joinAll
                     (map (fun k =>
                             ("    // Screeblock " ++ numberToString (Z.of_nat (j * nx + k)) ++ LF)
                               ++ joinAll (map (RegularText.rowText currentLayer j k) (seq 0 32))
                               ++ LF)
                        (seq 0 nx)))
              (seq 0 ny)).
Proof.
  intros nx ny. rewrite regular_tileLoops_text.
  change Regular.SCREENBLOCKWIDTH with 32. change Regular.SCREENBLOCKHEIGHT with 32.
  fold nx ny. f_equal.
  unfold RegularText.layerText. rewrite textFrom_counter_seq.
  f_equal. apply map_ext_in. intros j Hj.
  unfold RegularText.gridRowText. rewrite textFrom_counter_seq.
  f_equal. apply map_ext_in. intros k Hk.
  unfold RegularText.blockText. f_equal. f_equal. f_equal. f_equal. lia.
Qed.

(* ================================================================== *)
(** * What the written entries stand for *)
(* ================================================================== *)

(** X13.  Every entry the formats write for a cell of the host (a tile id
    from -1 up, in the 32-bit range) reads back as a number: the tile id
    in the affine format, the tile id with its flip bits in the regular
    format, and 0 for a blank cell in both, which is also what tile 0
    without flips is written as. *)
Theorem written_entries_read_back (c : Cell) (n : Z) :
  tileId c = IdNumber n -> -1 <= n < 2 ^ 31 ->
  Reader.hexValue (Affine.entryText c) = Some (if n =? -1 then 0 else n)
  /\ Reader.hexValue (Regular.entryText c)
     = Some (if n =? -1 then 0
             else Z.lor n (Z.lor (if flippedHorizontally c then 2 ^ 10 else 0)
                                 (if flippedVertically c then 2 ^ 11 else 0))).
Proof.
  intros Hid Hn. destruct c as [t h v]. cbn [tileId] in Hid. subst t.
  unfold Affine.entryText, Regular.entryText.
  cbn [tileId looseEqMinusOne idNumber flippedHorizontally flippedVertically].
  destruct (Z.eqb_spec n (-1)) as [Hb|Hb]; [split; reflexivity|].
  split.
  - apply hexValue_of_decimalToHex. lia.
  - rewrite regular_screenEntry_lor by lia.
    apply hexValue_of_decimalToHex.
    apply Z.lor_nonneg. split; [lia|].
    apply Z.lor_nonneg. destruct h, v; split; cbn; lia.
Qed.

Lemma written_entries_read_back_witness :
  (tileId (mkCell (IdNumber 5) true true) = IdNumber 5 /\ -1 <= 5 < 2 ^ 31)
  /\ Reader.hexValue (Affine.entryText (mkCell (IdNumber 5) true true)) = Some 5
  /\ Reader.hexValue (Regular.entryText (mkCell (IdNumber 5) true true)) = Some 3077.
Proof.
  assert (H : -1 <= 5 < 2 ^ 31) by (split; [discriminate | reflexivity]).
  split; [split; [reflexivity | exact H]|].
  exact (written_entries_read_back (mkCell (IdNumber 5) true true) 5 eq_refl H).
Defined.

(* ================================================================== *)
(** * Instances *)
(* ================================================================== *)

Lemma affine_entries_row_major_witness :
  (Affine.validSize affineSampleMap = true
   /\ layers affineSampleMap
      = ([objectLayer "Objects" 16 16] ++ sequentialLayer "Ground" 16 16 16 :: [])%list
   /\ isTileLayer (sequentialLayer "Ground" 16 16 16) = true)
  /\ exists body rest,
       In (FileCommit "/maps/level_one.c"
             ((includeLine "level_one" ++ arrayDefinition "Objects" 256 ++ "{" ++ LF)
                ++ arrayDefinition "Ground" 256
                ++ "{" ++ LF ++ body ++ LF ++ "};" ++ LF ++ rest))
          (effects (Affine.write sampleHost affineSampleMap sampleFileName))
       /\ Z.of_nat (List.length (Reader.entries body)) = 256
       /\ nth_error (Reader.entries body) (3 * 16 + 5) = Some "0x0035"
       /\ exists front, body = front ++ "0x00FF".
Proof.
  split; [repeat split|].
  destruct (affine_entries_row_major sampleHost affineSampleMap sampleFileName
              [objectLayer "Objects" 16 16] [] (sequentialLayer "Ground" 16 16 16)
              eq_refl eq_refl eq_refl)
    as [body [rest [Hfile [Hlen [Hnth Hlast]]]]].
  exists body, rest. split; [exact Hfile|]. split; [exact Hlen|]. split; [|exact Hlast].
  exact (Hnth 5%nat 3%nat eq_refl eq_refl).
Defined.

Lemma regular_body_keeps_last_comma_witness :
  (isTileLayer wideLayer = true /\ 0 < width wideLayer /\ 0 < height wideLayer)
  /\ exists front,
       snd (Regular.layerStep 2048 (EmptyString, EmptyString) wideLayer)
       = EmptyString ++ arrayDefinition "Ground" 2048 ++ "{" ++ LF
           ++ (front ++ "0x07FF" ++ ",") ++ LF ++ "};" ++ LF ++ LF.
Proof.
  split; [repeat split|].
  exact (regular_body_keeps_last_comma 2048 EmptyString EmptyString wideLayer
           eq_refl eq_refl eq_refl).
Defined.

Lemma regular_entries_any_layer_size_witness :
  (isTileLayer raggedLayer = true /\ 0 < width raggedLayer /\ 0 < height raggedLayer)
  /\ exists body,
       snd (Regular.layerStep 800 (EmptyString, EmptyString) raggedLayer)
       = EmptyString ++ arrayDefinition "Ground" 800
           ++ "{" ++ LF ++ body ++ LF ++ "};" ++ LF ++ LF
       /\ Z.of_nat (List.length (Reader.entries body)) = 2048
       /\ nth_error (Reader.entries body) ((0 * 2 + 1) * 1024 + 31 * 32 + 31)
          = Some "0x0517".
Proof.
  split; [repeat split|].
  destruct (regular_entries_any_layer_size 800 EmptyString EmptyString raggedLayer
              eq_refl eq_refl eq_refl)
    as [body [Hstep [Hlen [_ Hnth]]]].
  exists body. split; [exact Hstep|]. split; [exact Hlen|].
  exact (Hnth 0%nat 1%nat 31%nat 31%nat eq_refl eq_refl
           ltac:(repeat constructor) ltac:(repeat constructor)).
Defined.

Lemma regular_tile_layer_without_blocks_witness :
  (isTileLayer flatLayer = true /\ (width flatLayer <= 0 \/ height flatLayer <= 0))
  /\ Regular.layerStep 0 (EmptyString, EmptyString) flatLayer
     = ("extern const unsigned short Ground[0];" ++ LF,
        "const unsigned short Ground[0] __attribute__((aligned(4))) ="
          ++ LF ++ "};" ++ LF ++ LF).
Proof.
  assert (H : width flatLayer <= 0 \/ height flatLayer <= 0) by (left; discriminate).
  split; [split; [reflexivity | exact H]|].
  exact (regular_tile_layer_without_blocks 0 EmptyString EmptyString flatLayer eq_refl H).
Defined.

Lemma inside_true (w h x y : Z) :
  0 <= x < w -> 0 <= y < h -> inside w h x y = true.
Proof.
  intros Hx Hy. unfold inside.
  rewrite !andb_true_iff, !Z.leb_le, !Z.ltb_lt. lia.
Qed.

Lemma affine_reads_tile_ids_within_map_witness :
  (map_width plainMap16 = map_width flippedMap16
   /\ map_height plainMap16 = map_height flippedMap16
   /\ Forall2 (sameTileIdsWithin (map_width plainMap16) (map_height plainMap16))
        (layers plainMap16) (layers flippedMap16))
  /\ Affine.write sampleHost plainMap16 sampleFileName
     = Affine.write sampleHost flippedMap16 sampleFileName.
Proof.
  assert (H : Forall2 (sameTileIdsWithin (map_width plainMap16) (map_height plainMap16))
                (layers plainMap16) (layers flippedMap16)).
  { constructor; [|constructor]. split; [reflexivity|]. split; [reflexivity|].
    intros x y Hx Hy. cbn [cellAt sequentialLayer]. rewrite inside_true by assumption.
    reflexivity. }
  split; [split; [reflexivity | split; [reflexivity | exact H]]|].
  exact (affine_reads_tile_ids_within_map sampleHost plainMap16 flippedMap16
           sampleFileName eq_refl eq_refl H).
Defined.

Lemma regular_reads_cells_within_blocks_witness :
  (map_width roundTripMap = map_width paddedMap
   /\ map_height roundTripMap = map_height paddedMap
   /\ Forall2 sameCellsWithinBlocks (layers roundTripMap) (layers paddedMap))
  /\ Regular.write sampleHost roundTripMap sampleFileName
     = Regular.write sampleHost paddedMap sampleFileName.
Proof.
  assert (H : Forall2 sameCellsWithinBlocks (layers roundTripMap) (layers paddedMap)).
  { constructor; [|constructor]. repeat (split; [reflexivity|]).
    intros x y Hx Hy. cbn [cellAt sequentialLayer].
    change (32 * Z.of_nat (countBelowQuotient (width (sequentialLayer "Ground" 32 32 32)) 32))
      with 32 in Hx.
    change (32 * Z.of_nat (countBelowQuotient (height (sequentialLayer "Ground" 32 32 32)) 32))
      with 32 in Hy.
    now rewrite inside_true by assumption. }
  split; [split; [reflexivity | split; [reflexivity | exact H]]|].
  exact (regular_reads_cells_within_blocks sampleHost roundTripMap paddedMap
           sampleFileName eq_refl eq_refl H).
Defined.

Lemma one_screenblock_same_entries_witness :
  (map_width roundTripMap = 32 /\ map_height roundTripMap = 32
   /\ width (sequentialLayer "Ground" 32 32 32) = 32
   /\ height (sequentialLayer "Ground" 32 32 32) = 32
   /\ isTileLayer (sequentialLayer "Ground" 32 32 32) = true
   /\ forall x y, 0 <= x < 32 -> 0 <= y < 32 ->
        unflipped (cellAt (sequentialLayer "Ground" 32 32 32) x y))
  /\ exists bodyR bodyA,
       snd (Regular.layerStep 1024 (EmptyString, EmptyString)
              (sequentialLayer "Ground" 32 32 32))
       = EmptyString ++ arrayDefinition "Ground" 1024
           ++ "{" ++ LF ++ bodyR ++ LF ++ "};" ++ LF ++ LF
       /\ snd (Affine.layerStep roundTripMap 1024 (EmptyString, EmptyString)
                 (sequentialLayer "Ground" 32 32 32))
          = EmptyString ++ arrayDefinition "Ground" 1024
              ++ "{" ++ LF ++ bodyA ++ LF ++ "};" ++ LF ++ LF
       /\ Reader.entries bodyR = Reader.entries bodyA
       /\ bodyR = ("    // Screeblock 0" ++ LF) ++ bodyA ++ ",".
Proof.
  assert (H : forall x y, 0 <= x < 32 -> 0 <= y < 32 ->
                unflipped (cellAt (sequentialLayer "Ground" 32 32 32) x y))
    by (intros x y _ _; split; reflexivity).
  split; [do 5 (split; [reflexivity|]); exact H|].
  exact (one_screenblock_same_entries roundTripMap 1024 EmptyString EmptyString
           EmptyString EmptyString (sequentialLayer "Ground" 32 32 32)
           eq_refl eq_refl eq_refl eq_refl eq_refl H).
Defined.
